(** * Run activation pipeline (StartRunService) and the Shopify integration

    A shallow embedding of two TypeScript sources of the repository:

    - [startRun.server.ts]: [StartRunService] with [findRun],
      [createRunConnections], [hasMissingConnections] and [jobIdToLockId];
    - the Shopify integration class (constructor and [authSource] getter).

    The Prisma store is a record of finite maps and lists, the service is
    written in a small state-and-exception monad over that store, and the
    interactive transaction keeps the writes made through the transaction
    client apart from the writes made through the outer client.  Every
    store operation is appended to a log, so that what a function asks of
    the store, and in which order, can be stated.

    Tables with a primary key are finite maps from that key
    ([jobRun], [jobCounter], [missingConnection]); the
    [Record<string, ...>] built by [createRunConnections] is the finite map
    of its own properties (see [record_assign] for the one key that an
    assignment does not turn into a property); a new [MissingConnection] id (a cuid in the
    source) is an id that is not in the table; the many-to-many relation
    between runs and missing connections is the set of run ids of a
    row. *)

From Stdlib Require Import ZArith Ascii String List Lia.
From stdpp Require Import gmap strings list fin_maps pretty.

Set Warnings "-clear-no-such-hyp".

Open Scope Z_scope.

(** ** SHA-256 (node:crypto [createHash("sha256")]) *)

Module Sha256.

Definition wrap32 (x : Z) : Z := Z.land x 0xFFFFFFFF.
Definition add32 (a b : Z) : Z := wrap32 (a + b).
Definition rotr (n x : Z) : Z :=
  Z.lor (Z.shiftr x n) (wrap32 (Z.shiftl x (32 - n))).
Definition xor3 (a b c : Z) : Z := Z.lxor (Z.lxor a b) c.

Definition Ch (x y z : Z) : Z :=
  Z.lxor (Z.land x y) (Z.land (Z.lxor x 0xFFFFFFFF) z).
Definition Maj (x y z : Z) : Z :=
  xor3 (Z.land x y) (Z.land x z) (Z.land y z).
Definition bsig0 (x : Z) : Z := xor3 (rotr 2 x) (rotr 13 x) (rotr 22 x).
Definition bsig1 (x : Z) : Z := xor3 (rotr 6 x) (rotr 11 x) (rotr 25 x).
Definition ssig0 (x : Z) : Z := xor3 (rotr 7 x) (rotr 18 x) (Z.shiftr x 3).
Definition ssig1 (x : Z) : Z := xor3 (rotr 17 x) (rotr 19 x) (Z.shiftr x 10).

Definition K : list Z :=
  [ 0x428A2F98; 0x71374491; 0xB5C0FBCF; 0xE9B5DBA5;
    0x3956C25B; 0x59F111F1; 0x923F82A4; 0xAB1C5ED5;
    0xD807AA98; 0x12835B01; 0x243185BE; 0x550C7DC3;
    0x72BE5D74; 0x80DEB1FE; 0x9BDC06A7; 0xC19BF174;
    0xE49B69C1; 0xEFBE4786; 0x0FC19DC6; 0x240CA1CC;
    0x2DE92C6F; 0x4A7484AA; 0x5CB0A9DC; 0x76F988DA;
    0x983E5152; 0xA831C66D; 0xB00327C8; 0xBF597FC7;
    0xC6E00BF3; 0xD5A79147; 0x06CA6351; 0x14292967;
    0x27B70A85; 0x2E1B2138; 0x4D2C6DFC; 0x53380D13;
    0x650A7354; 0x766A0ABB; 0x81C2C92E; 0x92722C85;
    0xA2BFE8A1; 0xA81A664B; 0xC24B8B70; 0xC76C51A3;
    0xD192E819; 0xD6990624; 0xF40E3585; 0x106AA070;
    0x19A4C116; 0x1E376C08; 0x2748774C; 0x34B0BCB5;
    0x391C0CB3; 0x4ED8AA4A; 0x5B9CCA4F; 0x682E6FF3;
    0x748F82EE; 0x78A5636F; 0x84C87814; 0x8CC70208;
    0x90BEFFFA; 0xA4506CEB; 0xBEF9A3F7; 0xC67178F2 ].

Definition H0 : list Z :=
  [ 0x6A09E667; 0xBB67AE85; 0x3C6EF372; 0xA54FF53A;
    0x510E527F; 0x9B05688C; 0x1F83D9AB; 0x5BE0CD19 ].

(** Message bytes: the UTF-8 bytes of the string, one per character of
    the Rocq string. *)
Definition bytes_of_string (s : string) : list Z :=
  map (fun c => Z.of_N (N_of_ascii c)) (list_ascii_of_string s).

Definition be_bytes (n : nat) (x : Z) : list Z :=
  map (fun i => Z.land (Z.shiftr x (8 * Z.of_nat i)) 0xFF) (rev (seq 0 n)).

Definition pad (msg : list Z) : list Z :=
  let len := Z.of_nat (length msg) in
  let zeros := Z.to_nat ((55 - len) mod 64) in
  msg ++ [0x80] ++ repeat 0 zeros ++ be_bytes 8 (8 * len).

Fixpoint words_of (fuel : nat) (bs : list Z) : list Z :=
  match fuel, bs with
  | S fuel', b3 :: b2 :: b1 :: b0 :: rest =>
      (Z.shiftl b3 24 + Z.shiftl b2 16 + Z.shiftl b1 8 + b0)
        :: words_of fuel' rest
  | _, _ => []
  end.

Definition word_at (w : list Z) (i : nat) : Z := default 0 (w !! i).

Fixpoint expand (n : nat) (w : list Z) : list Z :=
  match n with
  | O => w
  | S n' =>
      let t := length w in
      let x :=
        add32 (add32 (ssig1 (word_at w (t - 2))) (word_at w (t - 7)))
              (add32 (ssig0 (word_at w (t - 15))) (word_at w (t - 16))) in
      expand n' (w ++ [x])
  end.

Definition round (st : list Z) (kw : Z * Z) : list Z :=
  match st with
  | [a; b; c; d; e; f; g; h] =>
      let t1 := add32 (add32 (add32 h (bsig1 e)) (Ch e f g))
                      (add32 (fst kw) (snd kw)) in
      let t2 := add32 (bsig0 a) (Maj a b c) in
      [add32 t1 t2; a; b; c; add32 d t1; e; f; g]
  | _ => st
  end.

Definition compress (h : list Z) (block : list Z) : list Z :=
  let w := expand 48 block in
  let st := fold_left round (combine K w) h in
  map (fun p => add32 (fst p) (snd p)) (combine h st).

Fixpoint blocks (fuel : nat) (ws : list Z) : list (list Z) :=
  match fuel, ws with
  | S fuel', _ :: _ => firstn 16 ws :: blocks fuel' (skipn 16 ws)
  | _, _ => []
  end.

Definition digest_words (msg : list Z) : list Z :=
  let bs := pad msg in
  let ws := words_of (length bs) bs in
  fold_left compress (blocks (length ws) ws) H0.

Definition hex_digit (n : Z) : ascii :=
  if n <? 10 then ascii_of_N (Z.to_N (48 + n))
  else ascii_of_N (Z.to_N (87 + n)).

Definition nibbles (w : Z) : list Z :=
  map (fun i => Z.land (Z.shiftr w (4 * Z.of_nat i)) 0xF) (rev (seq 0 8)).

Definition hex_word (w : Z) : list ascii := map hex_digit (nibbles w).

(** [createHash("sha256").update(s).digest("hex")] *)
Definition sha256_hex (s : string) : string :=
  string_of_list_ascii
    (concat (map hex_word (digest_words (bytes_of_string s)))).

End Sha256.

(** ** JavaScript values used by the sources *)

(** A JavaScript number as far as the sources need it: an integer or NaN. *)
Inductive JsNumber :=
| JsNaN
| JsInt (z : Z).

(** Truthiness of a string: every string but the empty one. *)
Definition truthy_string (s : string) : bool :=
  match s with
  | EmptyString => false
  | String _ _ => true
  end.

(** Truthiness of [string | null | undefined]. *)
Definition truthy (v : option string) : bool :=
  match v with
  | Some s => truthy_string s
  | None => false
  end.

(** [v ?? d]: only null and undefined fall through to the default. *)
Definition nullish_or (v : option string) (d : string) : string :=
  match v with
  | Some s => s
  | None => d
  end.

Definition hex_value (c : ascii) : option Z :=
  let n := Z.of_N (N_of_ascii c) in
  if (48 <=? n) && (n <=? 57) then Some (n - 48)
  else if (97 <=? n) && (n <=? 102) then Some (n - 87)
  else if (65 <=? n) && (n <=? 70) then Some (n - 55)
  else None.

Fixpoint parse_digits (acc : option Z) (cs : list ascii) : option Z :=
  match cs with
  | [] => acc
  | c :: cs' =>
      match hex_value c with
      | Some d => parse_digits (Some (16 * default 0 acc + d)) cs'
      | None => acc
      end
  end.

Definition is_white_space (c : ascii) : bool :=
  let n := Z.of_N (N_of_ascii c) in
  ((9 <=? n) && (n <=? 13)) || (n =? 32).

Fixpoint trim_start (cs : list ascii) : list ascii :=
  match cs with
  | c :: cs' => if is_white_space c then trim_start cs' else cs
  | [] => []
  end.

(** [parseInt(s, 16)]: leading (ASCII) white space, an optional sign, an
    optional [0x] prefix, then the longest run of hexadecimal digits; NaN
    when there is no digit. *)
Definition strip_sign (cs : list ascii) : Z * list ascii :=
  match cs with
  | c :: r =>
      if Ascii.eqb c "-" then (-1, r)
      else if Ascii.eqb c "+" then (1, r)
      else (1, cs)
  | [] => (1, cs)
  end.

Definition strip_hex_prefix (cs : list ascii) : list ascii :=
  match cs with
  | c0 :: c1 :: r =>
      if Ascii.eqb c0 "0" && (Ascii.eqb c1 "x" || Ascii.eqb c1 "X")
      then r else cs
  | _ => cs
  end.

Definition parseInt16 (s : string) : JsNumber :=
  let '(sign, cs) := strip_sign (trim_start (list_ascii_of_string s)) in
  match parse_digits None (strip_hex_prefix cs) with
  | Some v => JsInt (sign * v)
  | None => JsNaN
  end.

(** [s.slice(0, n)] *)
Definition slice0 (n : nat) (s : string) : string := substring 0 n s.

(** [jobIdToLockId] *)
Definition jobIdToLockId (jobId : string) : JsNumber :=
  parseInt16 (slice0 8 (Sha256.sha256_hex jobId)).

(** ** Data model (the Prisma rows the service reads and writes) *)

(** [JobRunStatus]: the three statuses the service names, and every other
    status of the enum, which is owned by other services. *)
Inductive JobRunStatus :=
| PENDING
| QUEUED
| WAITING_ON_CONNECTIONS
| OTHER_STATUS (name : string).

Inductive IntegrationAuthSource :=
| HOSTED
| LOCAL
| RESOLVER.

Inductive ConnectionType :=
| EXTERNAL
| DEVELOPER.

#[global] Instance JobRunStatus_eq_dec : EqDecision JobRunStatus.
Proof. solve_decision. Defined.
#[global] Instance IntegrationAuthSource_eq_dec : EqDecision IntegrationAuthSource.
Proof. solve_decision. Defined.
#[global] Instance ConnectionType_eq_dec : EqDecision ConnectionType.
Proof. solve_decision. Defined.

Record Integration := {
  integration_id : string;
  integration_authSource : IntegrationAuthSource
}.

Record IntegrationConnection := {
  connection_id : string;
  connection_integrationId : string;
  connection_connectionType : ConnectionType;
  connection_externalAccountId : option string
}.

(** A row of [version.integrations], with its [integration] included. *)
Record JobIntegration := {
  ji_key : string;
  ji_integration : Integration
}.

Record JobRun := {
  run_id : string;
  run_jobId : string;
  run_versionId : string;
  run_status : JobRunStatus;
  run_externalAccountId : option string;
  run_number : option Z;
  run_queuedAt : option Z
}.

(** A [MissingConnection] row; [mc_runs] is its side of the many-to-many
    relation with runs, so [_count.runs] is the size of that set. *)
Record MissingConnection := {
  mc_integrationId : string;
  mc_connectionType : ConnectionType;
  mc_accountIdentifier : string;
  mc_externalAccountId : option string;
  mc_resolved : bool;
  mc_runs : gset string
}.

Record RunConnection := {
  rc_runId : string;
  rc_key : string;
  rc_connectionId : option string;
  rc_integrationId : string;
  rc_authSource : IntegrationAuthSource
}.

(** Jobs on the worker queue: the provisioning notification of
    [#handleMissingConnections] and the dispatch of [ResumeRunService]. *)
Inductive WorkerJob :=
| missingConnectionCreated (id : string)
| resumeRun (runId : string).

#[global] Instance WorkerJob_eq_dec : EqDecision WorkerJob.
Proof. solve_decision. Defined.

Record Store := {
  jobRun : gmap string JobRun;
  jobIntegration : gmap string (list JobIntegration);
  integrationConnection : list IntegrationConnection;
  jobCounter : gmap string Z;
  missingConnection : gmap string MissingConnection;
  runConnection : list RunConnection;
  workerJobs : list WorkerJob
}.

(** The result of [findRun]: the run with [version.integrations]. *)
Record FoundRun := {
  found_run : JobRun;
  found_integrations : list JobIntegration
}.

(** The payload of a [missing] outcome. *)
Record MissingResult := {
  missing_connectionType : ConnectionType;
  missing_integration : Integration;
  missing_externalAccountId : option string
}.

(** The tagged union of [createRunConnections]. *)
Inductive RunConnectionResult :=
| resolvedHosted (connection : IntegrationConnection) (integration : Integration)
| resolvedLocal (integration : Integration)
| resolvedResolver (integration : Integration)
| missing (m : MissingResult).

(** The [where] argument of [integrationConnection.findFirst]; a field
    the query leaves out is [None]. *)
Record ConnectionWhere := {
  where_integrationId : string;
  where_connectionType : ConnectionType;
  where_externalAccountId : option string
}.

(** The two arguments of one [connectOrCreate] entry. *)
Record MissingConnectionWhere := {
  mcw_integrationId : string;
  mcw_connectionType : ConnectionType;
  mcw_accountIdentifier : string
}.

Record MissingConnectionCreate := {
  mcc_integrationId : string;
  mcc_connectionType : ConnectionType;
  mcc_accountIdentifier : string;
  mcc_externalAccountId : option string;
  mcc_resolved : bool
}.

(** ** Operations on the store and their log *)

Inductive DbOp :=
| OpFindRun (id : string)
| OpFindFirstConnection (w : ConnectionWhere)
| OpAdvisoryXactLock (lockId : JsNumber)
| OpJobCounterUpsert (jobId : string)
| OpJobRunUpdate (id : string)
| OpResumeRunEnqueue (runId : string)
| OpWorkerQueueEnqueue (job : WorkerJob)
| OpCommit
| OpRollback.

(** A write made through the transaction client: it reaches the store
    when the transaction commits. *)
Inductive TxWrite :=
| TxSetJobCounter (jobId : string) (lastNumber : Z)
| TxAddWorkerJob (job : WorkerJob).

(** Where an interactive transaction fails (a store error, or the timeout
    closing the transaction under the next statement). *)
Inductive Fault :=
| NoFault
| FailLock
| FailUpsert
| FailRunUpdate
| FailEnqueue
| FailCommit.

#[global] Instance Fault_eq_dec : EqDecision Fault.
Proof. solve_decision. Defined.

Record World := {
  store : Store;
  pending : list TxWrite;
  trace : list DbOp
}.

Inductive Result (A : Type) :=
| Ok (a : A)
| Throw (msg : string).
Arguments Ok {A} a.
Arguments Throw {A} msg.

Definition M (A : Type) : Type := World -> Result A * World.

Definition ret {A} (a : A) : M A := fun w => (Ok a, w).
Definition throw {A} (msg : string) : M A := fun w => (Throw msg, w).
Definition bind {A B} (m : M A) (k : A -> M B) : M B :=
  fun w =>
    match m w with
    | (Ok a, w') => k a w'
    | (Throw e, w') => (Throw e, w')
    end.

Notation "'let*' x ':=' m 'in' k" := (bind m (fun x => k))
  (at level 10, x name, m at level 100, k at level 200).
Notation "m1 ';;' m2" := (bind m1 (fun _ => m2))
  (at level 100, m2 at level 200, right associativity).

Definition get_store : M Store := fun w => (Ok (store w), w).
Definition put_store (s : Store) : M unit :=
  fun w => (Ok tt, {| store := s; pending := pending w; trace := trace w |}).
Definition log (op : DbOp) : M unit :=
  fun w => (Ok tt, {| store := store w; pending := pending w;
                      trace := trace w ++ [op] |}).
Definition get_pending : M (list TxWrite) := fun w => (Ok (pending w), w).
Definition put_pending (p : list TxWrite) : M unit :=
  fun w => (Ok tt, {| store := store w; pending := p; trace := trace w |}).
Definition fail_at (fault here : Fault) (msg : string) : M unit :=
  if decide (fault = here) then throw msg else ret tt.

Fixpoint foldM {A B} (f : A -> B -> M A) (a : A) (l : list B) : M A :=
  match l with
  | [] => ret a
  | b :: l' => let* a' := f a b in foldM f a' l'
  end.

(** ** The service *)

(** [findRun]: [jobRun.findUnique] with the version's integrations. *)
Definition findRun (id : string) : M (option FoundRun) :=
  log (OpFindRun id);;
  let* s := get_store in
  ret (match jobRun s !! id with
       | Some r =>
           Some {| found_run := r;
                   found_integrations :=
                     default [] (jobIntegration s !! run_versionId r) |}
       | None => None
       end).

Definition connection_matches (w : ConnectionWhere)
    (c : IntegrationConnection) : bool :=
  bool_decide (connection_integrationId c = where_integrationId w)
  && bool_decide (connection_connectionType c = where_connectionType w)
  && match where_externalAccountId w with
     | Some e => bool_decide (connection_externalAccountId c = Some e)
     | None => true
     end.

(** [integrationConnection.findFirst({ where })] *)
Definition integrationConnection_findFirst (w : ConnectionWhere)
    : M (option IntegrationConnection) :=
  log (OpFindFirstConnection w);;
  let* s := get_store in
  ret (find (connection_matches w) (integrationConnection s)).

(** [acc[key] = value], for an [acc] that started as the literal [{}] and
    a [value] that is an object.  The service reads the record through
    [Object.values] and [Object.entries] only, which list the own
    enumerable properties, so the record is the finite map of those.  The
    assignment adds or overwrites the own property [key] for every string
    but ["__proto__"]: that name is the accessor of [Object.prototype],
    whose setter makes [value] the prototype of [acc] and adds no own
    property. *)
Definition record_assign (key : string) (value : RunConnectionResult)
    (acc : gmap string RunConnectionResult)
    : gmap string RunConnectionResult :=
  if decide (key = "__proto__"%string) then acc else <[key := value]> acc.

(** The reducer of [createRunConnections]: one requirement. *)
Definition resolveRequirement (run : FoundRun)
    (acc : gmap string RunConnectionResult) (jobIntegration : JobIntegration)
    : M (gmap string RunConnectionResult) :=
  let integration := ji_integration jobIntegration in
  let externalAccountId := run_externalAccountId (found_run run) in
  if decide (integration_authSource integration = LOCAL) then
    ret (record_assign (ji_key jobIntegration) (resolvedLocal integration) acc)
  else if decide (integration_authSource integration = RESOLVER) then
    ret (record_assign (ji_key jobIntegration) (resolvedResolver integration)
                       acc)
  else
    let* connection :=
      if truthy externalAccountId then
        integrationConnection_findFirst
          {| where_integrationId := integration_id integration;
             where_connectionType := EXTERNAL;
             where_externalAccountId := externalAccountId |}
      else
        integrationConnection_findFirst
          {| where_integrationId := integration_id integration;
             where_connectionType := DEVELOPER;
             where_externalAccountId := None |} in
    match connection with
    | Some connection =>
        ret (record_assign (ji_key jobIntegration)
                           (resolvedHosted connection integration) acc)
    | None =>
        ret (record_assign (ji_key jobIntegration)
               (missing
                  {| missing_connectionType :=
                       if truthy externalAccountId then EXTERNAL
                       else DEVELOPER;
                     missing_integration := integration;
                     missing_externalAccountId := externalAccountId |})
               acc)
    end.

Definition createRunConnections (run : FoundRun)
    : M (gmap string RunConnectionResult) :=
  foldM (resolveRequirement run) ∅ (found_integrations run).

Definition is_missing (c : RunConnectionResult) : bool :=
  match c with
  | missing _ => true
  | _ => false
  end.

(** [Object.values(m).some(c => c.result === "missing")] *)
Definition hasMissingConnections (m : gmap string RunConnectionResult) : bool :=
  existsb is_missing (map snd (map_to_list m)).

Definition runIsStartable (run : FoundRun) : bool :=
  bool_decide (run_status (found_run run) ∈ [PENDING; WAITING_ON_CONNECTIONS]).

(** One entry of the [runConnections.create] list of [#startRun]. *)
Definition runConnectionCreate (id : string)
    (entry : string * RunConnectionResult) : option RunConnection :=
  match snd entry with
  | resolvedHosted connection integration =>
      Some {| rc_runId := id; rc_key := fst entry;
              rc_connectionId := Some (connection_id connection);
              rc_integrationId := integration_id integration;
              rc_authSource := HOSTED |}
  | resolvedLocal integration =>
      Some {| rc_runId := id; rc_key := fst entry;
              rc_connectionId := None;
              rc_integrationId := integration_id integration;
              rc_authSource := LOCAL |}
  | resolvedResolver integration =>
      Some {| rc_runId := id; rc_key := fst entry;
              rc_connectionId := None;
              rc_integrationId := integration_id integration;
              rc_authSource := RESOLVER |}
  | missing _ => None
  end.

Definition commit_write (s : Store) (w : TxWrite) : Store :=
  match w with
  | TxSetJobCounter jobId lastNumber =>
      {| jobRun := jobRun s; jobIntegration := jobIntegration s;
         integrationConnection := integrationConnection s;
         jobCounter := <[jobId := lastNumber]> (jobCounter s);
         missingConnection := missingConnection s;
         runConnection := runConnection s;
         workerJobs := workerJobs s |}
  | TxAddWorkerJob job =>
      {| jobRun := jobRun s; jobIntegration := jobIntegration s;
         integrationConnection := integrationConnection s;
         jobCounter := jobCounter s;
         missingConnection := missingConnection s;
         runConnection := runConnection s;
         workerJobs := workerJobs s ++ [job] |}
  end.

Section Service.

(** The step at which the transaction of this activation fails, if any,
    and the clock read by [new Date()]. *)
Variable fault : Fault.
Variable now : Z.

(** [tx.$executeRaw`SELECT pg_advisory_xact_lock(${lockId})`] *)
Definition tx_advisory_xact_lock (lockId : JsNumber) : M unit :=
  log (OpAdvisoryXactLock lockId);;
  fail_at fault FailLock "pg_advisory_xact_lock failed";;
  match lockId with
  | JsInt _ => ret tt
  | JsNaN => throw "invalid input for type bigint"
  end.

(** [tx.jobCounter.upsert]: create at 1, or increment, and select the
    resulting [lastNumber]. *)
Definition tx_jobCounter_upsert (jobId : string) : M Z :=
  log (OpJobCounterUpsert jobId);;
  fail_at fault FailUpsert "jobCounter.upsert failed";;
  let* s := get_store in
  let* p := get_pending in
  let lastNumber :=
    match jobCounter (fold_left commit_write p s) !! jobId with
    | Some n => n + 1
    | None => 1
    end in
  put_pending (p ++ [TxSetJobCounter jobId lastNumber]);;
  ret lastNumber.

(** [this.#prismaClient.jobRun.update] of [#startRun]: issued on the outer
    client, so it writes the store directly. *)
Definition jobRun_update_queued (id : string) (number : Z)
    (create : list RunConnection) : M JobRun :=
  log (OpJobRunUpdate id);;
  fail_at fault FailRunUpdate "jobRun.update failed";;
  let* s := get_store in
  match jobRun s !! id with
  | None => throw "Record to update not found"
  | Some r =>
      let updatedRun :=
        {| run_id := run_id r; run_jobId := run_jobId r;
           run_versionId := run_versionId r;
           run_status := QUEUED;
           run_externalAccountId := run_externalAccountId r;
           run_number := Some number;
           run_queuedAt := Some now |} in
      put_store
        {| jobRun := <[id := updatedRun]> (jobRun s);
           jobIntegration := jobIntegration s;
           integrationConnection := integrationConnection s;
           jobCounter := jobCounter s;
           missingConnection := missingConnection s;
           runConnection := runConnection s ++ create;
           workerJobs := workerJobs s |};;
      ret updatedRun
  end.

(** Modelled from the spec: [ResumeRunService.enqueue(run, tx)] of
    [resumeRun.server.ts], the execution-dispatch collaborator, which
    accepts the run that has just been queued and enqueues it once,
    through the transaction client it is given. *)
Definition ResumeRunService_enqueue (run : JobRun) : M unit :=
  log (OpResumeRunEnqueue (run_id run));;
  fail_at fault FailEnqueue "enqueue failed";;
  let* p := get_pending in
  put_pending (p ++ [TxAddWorkerJob (resumeRun (run_id run))]).

(** Modelled from the spec: [$transaction] of [db.server.ts], an
    interactive transaction with a bounded timeout: the writes made through
    the transaction client take effect together when the callback returns,
    and are dropped, with the failure passed on to the caller, when the
    callback or the commit fails. *)
Definition transaction {A} (body : M A) : M A :=
  fun w =>
    match body {| store := store w; pending := []; trace := trace w |} with
    | (Ok a, w') =>
        if decide (fault = FailCommit) then
          (Throw "transaction failed",
           {| store := store w'; pending := pending w;
              trace := trace w' ++ [OpRollback] |})
        else
          (Ok a,
           {| store := fold_left commit_write (pending w') (store w');
              pending := pending w;
              trace := trace w' ++ [OpCommit] |})
    | (Throw e, w') =>
        (Throw e,
         {| store := store w'; pending := pending w;
            trace := trace w' ++ [OpRollback] |})
    end.

(** [#startRun] *)
Definition startRun (id : string) (run : FoundRun)
    (runConnectionsByKey : gmap string RunConnectionResult) : M unit :=
  let createRunConnections :=
    omap (runConnectionCreate id) (map_to_list runConnectionsByKey) in
  let lockId := jobIdToLockId (run_jobId (found_run run)) in
  transaction
    (tx_advisory_xact_lock lockId;;
     let* counter := tx_jobCounter_upsert (run_jobId (found_run run)) in
     let* updatedRun := jobRun_update_queued id counter createRunConnections in
     ResumeRunService_enqueue updatedRun).

End Service.

(** One [connectOrCreate] entry of [#handleMissingConnections]: its
    [where] key and its [create] payload. *)
Definition connectOrCreate_entry (connection : MissingResult)
    : MissingConnectionWhere * MissingConnectionCreate :=
  ({| mcw_integrationId := integration_id (missing_integration connection);
      mcw_connectionType := missing_connectionType connection;
      mcw_accountIdentifier :=
        nullish_or (missing_externalAccountId connection) "DEVELOPER" |},
   {| mcc_integrationId := integration_id (missing_integration connection);
      mcc_connectionType := missing_connectionType connection;
      mcc_accountIdentifier :=
        nullish_or (missing_externalAccountId connection) "DEVELOPER";
      mcc_externalAccountId := missing_externalAccountId connection;
      mcc_resolved := false |}).

(** The unique key [integrationId_connectionType_accountIdentifier]. *)
Definition mc_matches (w : MissingConnectionWhere)
    (row : MissingConnection) : bool :=
  bool_decide (mc_integrationId row = mcw_integrationId w)
  && bool_decide (mc_connectionType row = mcw_connectionType w)
  && bool_decide (mc_accountIdentifier row = mcw_accountIdentifier w).

Definition mc_connect (id : string) (row : MissingConnection)
    : MissingConnection :=
  {| mc_integrationId := mc_integrationId row;
     mc_connectionType := mc_connectionType row;
     mc_accountIdentifier := mc_accountIdentifier row;
     mc_externalAccountId := mc_externalAccountId row;
     mc_resolved := mc_resolved row;
     mc_runs := {[id]} ∪ mc_runs row |}.

Definition mc_create (id : string) (c : MissingConnectionCreate)
    : MissingConnection :=
  {| mc_integrationId := mcc_integrationId c;
     mc_connectionType := mcc_connectionType c;
     mc_accountIdentifier := mcc_accountIdentifier c;
     mc_externalAccountId := mcc_externalAccountId c;
     mc_resolved := mcc_resolved c;
     mc_runs := {[id]} |}.

(** [connectOrCreate] for the run [id]: link the run to the row the
    [where] key selects, or insert a row from the [create] payload under a
    new id and link the run to it. *)
Definition connectOrCreate (id : string)
    (table : gmap string MissingConnection)
    (entry : MissingConnectionWhere * MissingConnectionCreate)
    : gmap string MissingConnection :=
  match find (fun kv => mc_matches (fst entry) (snd kv)) (map_to_list table) with
  | Some (mcId, row) => <[mcId := mc_connect id row]> table
  | None => <[fresh (dom table) := mc_create id (snd entry)]> table
  end.

(** [jobRun.update] of [#handleMissingConnections], returning the run's
    [missingConnections] with their rows as the [include] asks. *)
Definition jobRun_update_waiting (id : string)
    (entries : list (MissingConnectionWhere * MissingConnectionCreate))
    : M (list (string * MissingConnection)) :=
  log (OpJobRunUpdate id);;
  let* s := get_store in
  match jobRun s !! id with
  | None => throw "Record to update not found"
  | Some r =>
      let table := fold_left (connectOrCreate id) entries (missingConnection s) in
      put_store
        {| jobRun :=
             <[id := {| run_id := run_id r; run_jobId := run_jobId r;
                        run_versionId := run_versionId r;
                        run_status := WAITING_ON_CONNECTIONS;
                        run_externalAccountId := run_externalAccountId r;
                        run_number := run_number r;
                        run_queuedAt := run_queuedAt r |}]> (jobRun s);
           jobIntegration := jobIntegration s;
           integrationConnection := integrationConnection s;
           jobCounter := jobCounter s;
           missingConnection := table;
           runConnection := runConnection s;
           workerJobs := workerJobs s |};;
      ret (filter (fun kv => id ∈ mc_runs (snd kv)) (map_to_list table))
  end.

(** [workerQueue.enqueue(name, payload)], outside any transaction. *)
Definition workerQueue_enqueue (job : WorkerJob) : M unit :=
  log (OpWorkerQueueEnqueue job);;
  let* s := get_store in
  put_store
    {| jobRun := jobRun s; jobIntegration := jobIntegration s;
       integrationConnection := integrationConnection s;
       jobCounter := jobCounter s;
       missingConnection := missingConnection s;
       runConnection := runConnection s;
       workerJobs := workerJobs s ++ [job] |}.

Definition missing_of (c : RunConnectionResult) : option MissingResult :=
  match c with
  | missing m => Some m
  | _ => None
  end.

(** [#handleMissingConnections] *)
Definition handleMissingConnections (id : string)
    (runConnectionsByKey : gmap string RunConnectionResult) : M unit :=
  let missingConnections :=
    omap missing_of (map snd (map_to_list runConnectionsByKey)) in
  let* updatedRun_missingConnections :=
    jobRun_update_waiting id (map connectOrCreate_entry missingConnections) in
  foldM
    (fun _ missingConnection =>
       if decide (size (mc_runs (snd missingConnection)) = 1%nat) then
         workerQueue_enqueue (missingConnectionCreated (fst missingConnection))
       else ret tt)
    tt updatedRun_missingConnections.

(** [StartRunService.call] *)
Definition call (fault : Fault) (now : Z) (id : string) : M unit :=
  let* run := findRun id in
  match run with
  | None => ret tt
  | Some run =>
      if negb (runIsStartable run) then ret tt
      else
        let* runConnectionsByKey := createRunConnections run in
        if hasMissingConnections runConnectionsByKey then
          handleMissingConnections id runConnectionsByKey
        else
          startRun fault now id run runConnectionsByKey
  end.

(** ** The Shopify integration: constructor and [authSource] *)

Module Shopify.

(** The [apiKey] property of the options object: the key may be missing,
    present with the value [undefined], or present with a string. *)
Inductive ApiKeyOption :=
| KeyAbsent
| KeyUndefined
| KeyString (apiKey : string).

(** [ShopifyIntegrationOptions], with the fields the two members read. *)
Record ShopifyIntegrationOptions := {
  id : string;
  apiKey : ApiKeyOption;
  hostName : string
}.

Inductive AuthSource :=
| LOCAL
| HOSTED.

(** [Object.keys(options).includes("apiKey")] *)
Definition has_apiKey_key (options : ShopifyIntegrationOptions) : bool :=
  match apiKey options with
  | KeyAbsent => false
  | _ => true
  end.

(** Truthiness of [options.apiKey]. *)
Definition apiKey_truthy (options : ShopifyIntegrationOptions) : bool :=
  match apiKey options with
  | KeyString s => truthy_string s
  | _ => false
  end.

(** [s.replace(pat, "")]: the first occurrence of [pat] removed. *)
Fixpoint remove_first (fuel : nat) (pat s : string) : string :=
  if String.prefix pat s then
    substring (String.length pat) (String.length s - String.length pat) s
  else
    match fuel, s with
    | S fuel', String c s' => String c (remove_first fuel' pat s')
    | _, _ => s
    end.

Record Instance := {
  _options : ShopifyIntegrationOptions;
  _shopDomain : string
}.

(** [new Shopify(options)]: the instance, or the thrown string. *)
Definition new (options : ShopifyIntegrationOptions) : string + Instance :=
  if has_apiKey_key options && negb (apiKey_truthy options) then
    inl ("Can't create Shopify integration (" ++ id options
         ++ ") as apiKey was undefined")%string
  else
    let h := hostName options in
    let h1 := remove_first (String.length h) "http://" h in
    inr {| _options := options;
           _shopDomain := remove_first (String.length h1) "https://" h1 |}.

(** [get authSource()] *)
Definition authSource (this : Instance) : AuthSource :=
  if apiKey_truthy (_options this) then LOCAL else HOSTED.

End Shopify.

(** ** Definitions used by the statements *)

(** Shape of a SHA-256 hash state: eight 32-bit words. *)
Definition word_list (l : list Z) : Prop :=
  length l = 8%nat /\ Forall (fun x => 0 <= x < 2 ^ 32) l.

(** The one connection lookup of a hosted requirement, in the words of the
    amended claim C2: EXTERNAL with the run's identifier when the run
    carries a non-empty one, DEVELOPER otherwise. *)
Definition spec_lookup (run : JobRun) (i : Integration) : ConnectionWhere :=
  match run_externalAccountId run with
  | Some e =>
      if decide (e = ""%string) then
        {| where_integrationId := integration_id i;
           where_connectionType := DEVELOPER;
           where_externalAccountId := None |}
      else
        {| where_integrationId := integration_id i;
           where_connectionType := EXTERNAL;
           where_externalAccountId := Some e |}
  | None =>
      {| where_integrationId := integration_id i;
         where_connectionType := DEVELOPER;
         where_externalAccountId := None |}
  end.

(** The lookups a requirement costs: one when hosted, none otherwise. *)
Definition spec_lookups (run : JobRun) (i : Integration) : list DbOp :=
  match integration_authSource i with
  | HOSTED => [OpFindFirstConnection (spec_lookup run i)]
  | _ => []
  end.

(** The outcome of a requirement, in the words of the amended claim C2. *)
Definition spec_outcome (s : Store) (run : JobRun) (i : Integration)
    : RunConnectionResult :=
  match integration_authSource i with
  | LOCAL => resolvedLocal i
  | RESOLVER => resolvedResolver i
  | HOSTED =>
      match find (connection_matches (spec_lookup run i))
                 (integrationConnection s) with
      | Some c => resolvedHosted c i
      | None =>
          missing {| missing_connectionType :=
                       where_connectionType (spec_lookup run i);
                     missing_integration := i;
                     missing_externalAccountId := run_externalAccountId run |}
      end
  end.

(** The world after operations that only read. *)
Definition with_trace (w : World) (ops : list DbOp) : World :=
  {| store := store w; pending := pending w; trace := trace w ++ ops |}.

(** The map the reducer builds from the outcomes, requirement after
    requirement. *)
Definition resolve_all (s : Store) (run : FoundRun) (l : list JobIntegration)
    (acc : gmap string RunConnectionResult) : gmap string RunConnectionResult :=
  fold_left
    (fun a ji =>
       record_assign (ji_key ji)
         (spec_outcome s (found_run run) (ji_integration ji)) a)
    l acc.

(** The row of a run after the queue transition and after the tracker. *)
Definition queued (r : JobRun) (n now : Z) : JobRun :=
  {| run_id := run_id r; run_jobId := run_jobId r;
     run_versionId := run_versionId r; run_status := QUEUED;
     run_externalAccountId := run_externalAccountId r;
     run_number := Some n; run_queuedAt := Some now |}.

Definition waiting (r : JobRun) : JobRun :=
  {| run_id := run_id r; run_jobId := run_jobId r;
     run_versionId := run_versionId r;
     run_status := WAITING_ON_CONNECTIONS;
     run_externalAccountId := run_externalAccountId r;
     run_number := run_number r; run_queuedAt := run_queuedAt r |}.

(** The [connectOrCreate] list of the tracker and the table it yields. *)
Definition missing_entries (m : gmap string RunConnectionResult)
    : list (MissingConnectionWhere * MissingConnectionCreate) :=
  map connectOrCreate_entry (omap missing_of (map snd (map_to_list m))).

Definition tracker_table (id : string) (m : gmap string RunConnectionResult)
    (table : gmap string MissingConnection) : gmap string MissingConnection :=
  fold_left (connectOrCreate id) (missing_entries m) table.

(** The notifications the tracker's loop enqueues for the rows it is
    given, and the rows linked to a run ([updatedRun.missingConnections]). *)
Definition notifications (included : list (string * MissingConnection))
    : list WorkerJob :=
  map (fun kv => missingConnectionCreated (fst kv))
      (filter (fun kv => size (mc_runs (snd kv)) = 1%nat) included).

Definition linked (id : string) (table : gmap string MissingConnection)
    : list (string * MissingConnection) :=
  filter (fun kv => id ∈ mc_runs (snd kv)) (map_to_list table).

(** What [findRun] returns for the row [r]. *)
Definition found_of (s : Store) (r : JobRun) : FoundRun :=
  {| found_run := r;
     found_integrations := default [] (jobIntegration s !! run_versionId r) |}.

(** The statuses from which a run is activated. *)
Definition startable (r : JobRun) : Prop :=
  run_status r = PENDING \/ run_status r = WAITING_ON_CONNECTIONS.

(** The operations only the queue transition issues. *)
Definition queue_transition_op (op : DbOp) : bool :=
  match op with
  | OpAdvisoryXactLock _ | OpJobCounterUpsert _ | OpResumeRunEnqueue _
  | OpCommit | OpRollback => true
  | _ => false
  end.

(** A sequence of activations, each with its failure, clock and run id. *)
Fixpoint activate_all (calls : list (Fault * Z * string)) (w : World)
    : World :=
  match calls with
  | [] => w
  | (fault, now, id) :: calls' =>
      activate_all calls' (snd (call fault now id w))
  end.

(** The table has a row with the unique key [k], linked to the run [id]. *)
Definition has_row (table : gmap string MissingConnection)
    (k : MissingConnectionWhere) (id : string) : Prop :=
  exists mcId row,
    table !! mcId = Some row /\ mc_matches k row = true /\ id ∈ mc_runs row.

(** The advisory-lock keys taken in a log. *)
Definition lock_of (op : DbOp) : option JsNumber :=
  match op with
  | OpAdvisoryXactLock k => Some k
  | _ => None
  end.

Definition locks_taken (ops : list DbOp) : list JsNumber := omap lock_of ops.

(** ** Concrete stores *)

Module Examples.

Definition hosted : Integration :=
  {| integration_id := "I1"; integration_authSource := HOSTED |}.
Definition local : Integration :=
  {| integration_id := "I2"; integration_authSource := LOCAL |}.

Definition run_with (status : JobRunStatus) (externalAccountId : option string)
    : JobRun :=
  {| run_id := "R1"; run_jobId := "J"; run_versionId := "V";
     run_status := status; run_externalAccountId := externalAccountId;
     run_number := None; run_queuedAt := None |}.

Definition world_with (r : JobRun) (i : Integration)
    (connections : list IntegrationConnection) : World :=
  {| store :=
       {| jobRun := {[ "R1"%string := r ]};
          jobIntegration :=
            {[ "V"%string := [ {| ji_key := "shop"; ji_integration := i |} ] ]};
          integrationConnection := connections;
          jobCounter := ∅;
          missingConnection := ∅;
          runConnection := [];
          workerJobs := [] |};
     pending := [];
     trace := [] |}.

(** A pending run whose only requirement is LOCAL. *)
Definition local_world : World := world_with (run_with PENDING None) local [].

(** A pending run whose only requirement is HOSTED, with no connection. *)
Definition missing_world : World :=
  world_with (run_with PENDING None) hosted [].

(** A run whose external-account identifier is the empty string, and an
    EXTERNAL connection for exactly that identifier. *)
Definition empty_account_connection : IntegrationConnection :=
  {| connection_id := "C1"; connection_integrationId := "I1";
     connection_connectionType := EXTERNAL;
     connection_externalAccountId := Some ""%string |}.
Definition empty_account_run : JobRun := run_with PENDING (Some ""%string).
Definition empty_account_world : World :=
  world_with empty_account_run hosted [empty_account_connection].

(** A developer connection for the hosted integration, and a world in
    which it has been created. *)
Definition developer_connection : IntegrationConnection :=
  {| connection_id := "C2"; connection_integrationId := "I1";
     connection_connectionType := DEVELOPER;
     connection_externalAccountId := None |}.
Definition connect (c : IntegrationConnection) (w : World) : World :=
  {| store :=
       {| jobRun := jobRun (store w);
          jobIntegration := jobIntegration (store w);
          integrationConnection := integrationConnection (store w) ++ [c];
          jobCounter := jobCounter (store w);
          missingConnection := missingConnection (store w);
          runConnection := runConnection (store w);
          workerJobs := workerJobs (store w) |};
     pending := pending w;
     trace := trace w |}.


End Examples.

Import Examples.

(** The lookup of the claim as it is written: EXTERNAL whenever the run
    carries an identifier. *)
Definition claimed_lookup (run : JobRun) (i : Integration) : ConnectionWhere :=
  match run_externalAccountId run with
  | Some e =>
      {| where_integrationId := integration_id i;
         where_connectionType := EXTERNAL;
         where_externalAccountId := Some e |}
  | None =>
      {| where_integrationId := integration_id i;
         where_connectionType := DEVELOPER;
         where_externalAccountId := None |}
  end.

(** What [findRun] and the resolver return in the example worlds. *)
Definition missing_found : FoundRun :=
  found_of (store missing_world) (run_with PENDING None).
Definition local_found : FoundRun :=
  found_of (store local_world) (run_with PENDING None).
Definition local_connections : gmap string RunConnectionResult :=
  {[ "shop"%string := resolvedLocal local ]}.
Definition missing_connections : gmap string RunConnectionResult :=
  {[ "shop"%string :=
       missing {| missing_connectionType := DEVELOPER;
                  missing_integration := hosted;
                  missing_externalAccountId := None |} ]}.

Definition options_with (k : Shopify.ApiKeyOption)
    : Shopify.ShopifyIntegrationOptions :=
  {| Shopify.id := "shop"; Shopify.apiKey := k;
     Shopify.hostName := "https://example.myshopify.com" |}.

(** ** Definitions used by the further statements *)

(** The value [jobCounter.upsert] yields for a job. *)
Definition next_number (s : Store) (jobId : string) : Z :=
  match jobCounter s !! jobId with
  | Some n => n + 1
  | None => 1
  end.

(** The store after the run update of [#startRun] alone. *)
Definition store_after_update (s : Store) (id : string) (r : JobRun)
    (n now : Z) (create : list RunConnection) : Store :=
  {| jobRun := <[id := queued r n now]> (jobRun s);
     jobIntegration := jobIntegration s;
     integrationConnection := integrationConnection s;
     jobCounter := jobCounter s;
     missingConnection := missingConnection s;
     runConnection := runConnection s ++ create;
     workerJobs := workerJobs s |}.

(** The store after the transaction of [#startRun] has committed. *)
Definition store_after_commit (s : Store) (id : string) (r : JobRun)
    (jobId : string) (n now : Z) (create : list RunConnection) : Store :=
  {| jobRun := <[id := queued r n now]> (jobRun s);
     jobIntegration := jobIntegration s;
     integrationConnection := integrationConnection s;
     jobCounter := <[jobId := n]> (jobCounter s);
     missingConnection := missingConnection s;
     runConnection := runConnection s ++ create;
     workerJobs := workerJobs s ++ [resumeRun (run_id r)] |}.

Definition bindings (id : string) (m : gmap string RunConnectionResult)
    : list RunConnection :=
  omap (runConnectionCreate id) (map_to_list m).

(** The store after [#handleMissingConnections]. *)
Definition store_after_tracker (s : Store) (id : string) (r : JobRun)
    (m : gmap string RunConnectionResult) : Store :=
  {| jobRun := <[id := waiting r]> (jobRun s);
     jobIntegration := jobIntegration s;
     integrationConnection := integrationConnection s;
     jobCounter := jobCounter s;
     missingConnection := tracker_table id m (missingConnection s);
     runConnection := runConnection s;
     workerJobs :=
       workerJobs s
       ++ notifications (linked id (tracker_table id m (missingConnection s))) |}.

(** The resolver's map for the row [r] in the store [s]. *)
Definition resolved (s : Store) (r : JobRun) : gmap string RunConnectionResult :=
  resolve_all s (found_of s r) (found_integrations (found_of s r)) ∅.

Definition same_identity (r r' : JobRun) : Prop :=
  run_id r' = run_id r /\ run_jobId r' = run_jobId r
  /\ run_versionId r' = run_versionId r
  /\ run_externalAccountId r' = run_externalAccountId r.

(** Queue transitions run one after the other, none failing: each entry
    is the run id, what [findRun] returned for it and its resolved
    connections. *)
Definition Transition : Type :=
  string * FoundRun * gmap string RunConnectionResult.

Definition transition_id (t : Transition) : string := fst (fst t).
Definition transition_jobId (t : Transition) : string :=
  run_jobId (found_run (snd (fst t))).

Fixpoint queue_all (now : Z) (ts : list Transition) (w : World) : World :=
  match ts with
  | [] => w
  | t :: ts' =>
      queue_all now ts'
        (snd (startRun NoFault now (transition_id t) (snd (fst t)) (snd t) w))
  end.


(** The unique key of a row. *)
Definition mc_key (row : MissingConnection) : MissingConnectionWhere :=
  {| mcw_integrationId := mc_integrationId row;
     mcw_connectionType := mc_connectionType row;
     mcw_accountIdentifier := mc_accountIdentifier row |}.

(** The unique index on [MissingConnection]: no two rows with one key. *)
Definition unique_keys (table : gmap string MissingConnection) : Prop :=
  forall i j ri rj,
    table !! i = Some ri -> table !! j = Some rj ->
    mc_key ri = mc_key rj -> i = j.

(** Two versions of a row that differ at most in the runs linked to it. *)
Definition same_credential (row row' : MissingConnection) : Prop :=
  mc_integrationId row' = mc_integrationId row
  /\ mc_connectionType row' = mc_connectionType row
  /\ mc_accountIdentifier row' = mc_accountIdentifier row
  /\ mc_externalAccountId row' = mc_externalAccountId row
  /\ mc_resolved row' = mc_resolved row.

(** [s.includes(pat)]: [pat] occurs somewhere in [s]. *)
Fixpoint occursb (pat s : string) : bool :=
  String.prefix pat s
  || match s with
     | String _ s' => occursb pat s'
     | EmptyString => false
     end.

(** ** The Shopify integration: clients, clones and tasks *)

Module ShopifyClient.

(** A library session; [accessToken] is the property the class assigns. *)
Record Session (SessionData : Type) := {
  session_data : SessionData;
  accessToken : option string
}.
Arguments session_data {SessionData} _.
Arguments accessToken {SessionData} _.

(** The argument of [shopifyApi], without the two constants
    [restResources] and [logger]. *)
Record ConfigParams (ApiVersion : Type) := {
  cfg_apiKey : string;
  cfg_apiSecretKey : string;
  cfg_adminApiAccessToken : string;
  cfg_apiVersion : ApiVersion;
  cfg_hostName : string;
  cfg_isCustomStoreApp : bool;
  cfg_isEmbeddedApp : bool
}.

(** What the class takes from [@trigger.dev/sdk] and
    [@shopify/shopify-api]: the types of their objects, the latest API
    version, [shopifyApi] with the two fields of [client.config] the class
    reads, [client.session.customAppSession], the values of the task
    options, and [retry.standardBackoff].  The library calls may throw. *)
Class Library := {
  IO : Type;
  Client : Type;
  SessionData : Type;
  ConnectionAuth : Type;
  ApiVersion : Type;
  LibraryError : Type;
  JsValue : Type;
  TaskKey : Type;
  Callback : Type;
  LATEST_API_VERSION : ApiVersion;
  shopifyApi : ConfigParams ApiVersion -> LibraryError + Client;
  config_hostName : Client -> string;
  config_adminApiAccessToken : Client -> option string;
  customAppSession : Client -> string -> LibraryError + Session SessionData;
  js_string : string -> JsValue;
  retry_standardBackoff : JsValue
}.

Section WithLibrary.

Context `{lib : Library}.

(** A thrown value: the string the constructor throws, an [Error] with
    its message, or whatever a library call throws. *)
Inductive Thrown :=
| ThrownString (s : string)
| ThrownError (message : string)
| ThrownByLibrary (e : LibraryError).

(** [ShopifyIntegrationOptions] in full ([scopes] is read nowhere). *)
Record Options := {
  base : Shopify.ShopifyIntegrationOptions;
  apiSecretKey : string;
  apiVersion : option ApiVersion;
  adminAccessToken : string;
  session : option (Session SessionData)
}.

(** An instance with the fields [cloneForRun] fills in. *)
Record RunInstance := {
  options : Options;
  shopDomain : string;
  _client : option Client;
  _io : option IO;
  _connectionKey : option string;
  _session : option (Session SessionData)
}.

(** [new Shopify(options)] *)
Definition construct (o : Options) : Thrown + RunInstance :=
  match Shopify.new (base o) with
  | inl s => inl (ThrownString s)
  | inr i =>
      inr {| options := o; shopDomain := Shopify._shopDomain i;
             _client := None; _io := None; _connectionKey := None;
             _session := None |}
  end.

Definition as_instance (this : RunInstance) : Shopify.Instance :=
  {| Shopify._options := base (options this);
     Shopify._shopDomain := shopDomain this |}.

(** [get authSource()], [get id()], [get clientSecret()] *)
Definition authSource (this : RunInstance) : Shopify.AuthSource :=
  Shopify.authSource (as_instance this).
Definition id (this : RunInstance) : string :=
  Shopify.id (base (options this)).
Definition clientSecret (this : RunInstance) : string :=
  apiSecretKey (options this).

(** The string [options.apiKey] when it is one. *)
Definition apiKey_string (o : Options) : string :=
  match Shopify.apiKey (base o) with
  | Shopify.KeyString s => s
  | _ => ""
  end.

(** [createClient(auth)] *)
Definition createClient (this : RunInstance) (auth : option ConnectionAuth)
    : Thrown + Client :=
  if Shopify.apiKey_truthy (base (options this)) then
    match shopifyApi
            {| cfg_apiKey := apiKey_string (options this);
               cfg_apiSecretKey := apiKey_string (options this);
               cfg_adminApiAccessToken := adminAccessToken (options this);
               cfg_apiVersion :=
                 default LATEST_API_VERSION (apiVersion (options this));
               cfg_hostName := shopDomain this;
               cfg_isCustomStoreApp := true;
               cfg_isEmbeddedApp := false |} with
    | inl e => inl (ThrownByLibrary e)
    | inr client => inr client
    end
  else inl (ThrownError "No auth").

(** [cloneForRun(io, connectionKey, auth)] *)
Definition cloneForRun (this : RunInstance) (io : IO) (connectionKey : string)
    (auth : option ConnectionAuth) : Thrown + RunInstance :=
  match construct (options this) with
  | inl e => inl e
  | inr shopify =>
      match createClient this auth with
      | inl e => inl e
      | inr client =>
          match customAppSession client (config_hostName client) with
          | inl e => inl (ThrownByLibrary e)
          | inr session0 =>
              let session1 :=
                {| session_data := session_data session0;
                   accessToken := config_adminApiAccessToken client |} in
              inr {| options := options shopify;
                     shopDomain := shopDomain shopify;
                     _client := Some client;
                     _io := Some io;
                     _connectionKey := Some connectionKey;
                     _session :=
                       Some (default session1 (session (options this))) |}
          end
      end
  end.

(** The error callback handed to [io.runTask]: the caller's, or
    [onError]. *)
Inductive ErrorCallback :=
| Custom (cb : Callback)
| DefaultOnError.

(** What [runTask] asks of [this._io.runTask]: the key, what the wrapped
    callback does when it is run (throw, or call the user's callback with
    the client and the session), the options and the error callback. *)
Record RunTaskRequest := {
  rt_io : IO;
  rt_key : TaskKey;
  rt_callback : Thrown + (Client * Session SessionData);
  rt_options : gmap string JsValue;
  rt_errorCallback : ErrorCallback
}.

(** [runTask(key, callback, options, errorCallback)] *)
Definition runTask (this : RunInstance) (key : TaskKey)
    (opts : option (gmap string JsValue)) (errorCallback : option Callback)
    : Thrown + RunTaskRequest :=
  match _io this with
  | None => inl (ThrownError "No IO")
  | Some io =>
      if truthy (_connectionKey this) then
        inr {| rt_io := io;
               rt_key := key;
               rt_callback :=
                 match _client this with
                 | None => inl (ThrownError "No client")
                 | Some client =>
                     match _session this with
                     | None => inl (ThrownError "No session")
                     | Some s => inr (client, s)
                     end
                 end;
               rt_options :=
                 <["connectionKey"%string :=
                     js_string (default ""%string (_connectionKey this))]>
                   (default ∅ opts
                    ∪ {[ "icon"%string := js_string "shopify";
                         "retry"%string := retry_standardBackoff ]});
               rt_errorCallback :=
                 match errorCallback with
                 | Some cb => Custom cb
                 | None => DefaultOnError
                 end |}
      else inl (ThrownError "No connection key")
  end.

(** [get rest()], as far as its guard goes: the session it wraps. *)
Definition rest (this : RunInstance) : Thrown + Session SessionData :=
  match _session this with
  | None => inl (ThrownError "No session")
  | Some s => inr s
  end.

End WithLibrary.

End ShopifyClient.

(** ** More concrete stores *)

Module Examples2.

(** Two pending runs of one job, whose version has the one requirement
    [i]. *)
Definition second_run : JobRun :=
  {| run_id := "R2"; run_jobId := "J"; run_versionId := "V";
     run_status := PENDING; run_externalAccountId := None;
     run_number := None; run_queuedAt := None |}.

Definition two_runs (i : Integration) : World :=
  {| store :=
       {| jobRun := {[ "R1"%string := run_with PENDING None;
                       "R2"%string := second_run ]};
          jobIntegration :=
            {[ "V"%string := [ {| ji_key := "shop"; ji_integration := i |} ] ]};
          integrationConnection := [];
          jobCounter := ∅;
          missingConnection := ∅;
          runConnection := [];
          workerJobs := [] |};
     pending := [];
     trace := [] |}.

Definition second_found : FoundRun :=
  found_of (store (two_runs local)) second_run.

(** A library whose client is its configuration and whose session data
    is the shop it was made for. *)
#[local] Instance library : ShopifyClient.Library :=
  {| ShopifyClient.IO := unit;
     ShopifyClient.Client := ShopifyClient.ConfigParams string;
     ShopifyClient.SessionData := string;
     ShopifyClient.ConnectionAuth := unit;
     ShopifyClient.ApiVersion := string;
     ShopifyClient.LibraryError := string;
     ShopifyClient.JsValue := string;
     ShopifyClient.TaskKey := string;
     ShopifyClient.Callback := unit;
     ShopifyClient.LATEST_API_VERSION := "2023-10"%string;
     ShopifyClient.shopifyApi := inr;
     ShopifyClient.config_hostName := ShopifyClient.cfg_hostName string;
     ShopifyClient.config_adminApiAccessToken :=
       fun c => Some (ShopifyClient.cfg_adminApiAccessToken string c);
     ShopifyClient.customAppSession :=
       fun _ shop =>
         inr {| ShopifyClient.session_data := shop;
                ShopifyClient.accessToken := None |};
     ShopifyClient.js_string := fun s => s;
     ShopifyClient.retry_standardBackoff := "standardBackoff"%string |}.

Definition shop_options (k : Shopify.ApiKeyOption) : ShopifyClient.Options :=
  {| ShopifyClient.base := options_with k;
     ShopifyClient.apiSecretKey := "secret";
     ShopifyClient.apiVersion := None;
     ShopifyClient.adminAccessToken := "token";
     ShopifyClient.session := None |}.

Definition shop_instance (k : Shopify.ApiKeyOption) : ShopifyClient.RunInstance :=
  {| ShopifyClient.options := shop_options k;
     ShopifyClient.shopDomain := "example.myshopify.com";
     ShopifyClient._client := None;
     ShopifyClient._io := None;
     ShopifyClient._connectionKey := None;
     ShopifyClient._session := None |}.

Definition shop_clone : ShopifyClient.RunInstance :=
  {| ShopifyClient.options := shop_options (Shopify.KeyString "key");
     ShopifyClient.shopDomain := "example.myshopify.com";
     ShopifyClient._client :=
       Some {| ShopifyClient.cfg_apiKey := "key";
               ShopifyClient.cfg_apiSecretKey := "key";
               ShopifyClient.cfg_adminApiAccessToken := "token";
               ShopifyClient.cfg_apiVersion := "2023-10"%string;
               ShopifyClient.cfg_hostName := "example.myshopify.com";
               ShopifyClient.cfg_isCustomStoreApp := true;
               ShopifyClient.cfg_isEmbeddedApp := false |};
     ShopifyClient._io := Some tt;
     ShopifyClient._connectionKey := Some "conn"%string;
     ShopifyClient._session :=
       Some {| ShopifyClient.session_data := "example.myshopify.com"%string;
               ShopifyClient.accessToken := Some "token"%string |} |}.

(** A pending run whose only requirement is HOSTED, has no connection and
    has the key ["__proto__"]. *)
Definition proto_requirement : JobIntegration :=
  {| ji_key := "__proto__"; ji_integration := hosted |}.

Definition proto_world : World :=
  {| store :=
       {| jobRun := {[ "R1"%string := run_with PENDING None ]};
          jobIntegration := {[ "V"%string := [proto_requirement] ]};
          integrationConnection := [];
          jobCounter := ∅;
          missingConnection := ∅;
          runConnection := [];
          workerJobs := [] |};
     pending := [];
     trace := [] |}.

End Examples2.

Import Examples2.

(** ** The lock key is a 32-bit number *)

Module Sha256Facts.
Import Sha256.

Lemma wrap32_range x : 0 <= wrap32 x < 2 ^ 32.
Proof.
  unfold wrap32. change 0xFFFFFFFF with (Z.ones 32).
  rewrite Z.land_ones by lia. apply Z.mod_pos_bound. lia.
Qed.

Lemma round_length st kw : length st = 8%nat -> length (round st kw) = 8%nat.
Proof.
  intros H. do 9 (destruct st as [|? st]; try discriminate H). reflexivity.
Qed.

Lemma rounds_length kws : forall st,
  length st = 8%nat -> length (fold_left round kws st) = 8%nat.
Proof.
  induction kws as [|kw kws IH]; intros st H; simpl; [exact H|].
  apply IH, round_length, H.
Qed.

Lemma compress_word_list h block : length h = 8%nat -> word_list (compress h block).
Proof.
  intros H. unfold compress, word_list. split.
  - rewrite length_map, length_combine, rounds_length by exact H.
    rewrite H. reflexivity.
  - apply Forall_map. apply Forall_forall. intros p _. apply wrap32_range.
Qed.

Lemma H0_word_list : word_list H0.
Proof.
  split; [reflexivity|]. unfold H0. repeat constructor; lia.
Qed.

Lemma digest_word_list msg : word_list (digest_words msg).
Proof.
  unfold digest_words.
  generalize (words_of (length (pad msg)) (pad msg)). intros ws.
  generalize (blocks (length ws) ws). intros bl. generalize H0_word_list. generalize H0.
  induction bl as [|b bl IH]; intros h Hh; simpl; [exact Hh|].
  apply IH. apply compress_word_list. apply Hh.
Qed.

End Sha256Facts.

Module LockKeyFacts.
Import Sha256 Sha256Facts.

Lemma nibble_nat n : 0 <= n < 16 ->
  exists i : nat, (i < 16)%nat /\ n = Z.of_nat i.
Proof. intros H. exists (Z.to_nat n). lia. Qed.

Ltac each_nibble H :=
  let i := fresh "i" in
  let Hi := fresh "Hi" in
  apply nibble_nat in H as (i & Hi & ->);
  do 16 (destruct i as [|i]; [vm_compute; repeat split; reflexivity|]);
  lia.

Lemma hex_value_digit n : 0 <= n < 16 -> hex_value (hex_digit n) = Some n.
Proof. intros H. each_nibble H. Qed.

Lemma hex_digit_plain n : 0 <= n < 16 ->
  is_white_space (hex_digit n) = false
  /\ Ascii.eqb (hex_digit n) "-" = false
  /\ Ascii.eqb (hex_digit n) "+" = false
  /\ Ascii.eqb (hex_digit n) "x" = false
  /\ Ascii.eqb (hex_digit n) "X" = false.
Proof. intros H. each_nibble H. Qed.

Lemma nibble_range w i : 0 <= Z.land (Z.shiftr w i) 0xF < 16.
Proof.
  change 0xF with (Z.ones 4). rewrite Z.land_ones by lia.
  apply Z.mod_pos_bound. lia.
Qed.

Lemma nibble_step w k : 0 <= k ->
  Z.land (Z.shiftr w k) 0xF = Z.shiftr w k - 16 * Z.shiftr w (k + 4).
Proof.
  intros Hk. change 0xF with (Z.ones 4). rewrite Z.land_ones by lia.
  rewrite <- (Z.shiftr_shiftr w k 4) by lia.
  rewrite (Z.shiftr_div_pow2 (Z.shiftr w k) 4) by lia.
  change (2 ^ 4) with 16.
  pose proof (Z.div_mod (Z.shiftr w k) 16). lia.
Qed.

Lemma nibbles_value w : 0 <= w < 2 ^ 32 ->
  fold_left (fun acc n => 16 * acc + n) (nibbles w) 0 = w.
Proof.
  intros H. unfold nibbles. cbn [rev seq app map fold_left].
  rewrite !nibble_step by lia.
  change (4 * Z.of_nat 7 + 4) with 32. change (4 * Z.of_nat 6 + 4) with 28.
  change (4 * Z.of_nat 5 + 4) with 24. change (4 * Z.of_nat 4 + 4) with 20.
  change (4 * Z.of_nat 3 + 4) with 16. change (4 * Z.of_nat 2 + 4) with 12.
  change (4 * Z.of_nat 1 + 4) with 8. change (4 * Z.of_nat 0 + 4) with 4.
  change (4 * Z.of_nat 7) with 28. change (4 * Z.of_nat 6) with 24.
  change (4 * Z.of_nat 5) with 20. change (4 * Z.of_nat 4) with 16.
  change (4 * Z.of_nat 3) with 12. change (4 * Z.of_nat 2) with 8.
  change (4 * Z.of_nat 1) with 4. change (4 * Z.of_nat 0) with 0.
  assert (Z.shiftr w 32 = 0) as ->.
  { rewrite Z.shiftr_div_pow2 by lia. apply Z.div_small. lia. }
  rewrite Z.shiftr_0_r. lia.
Qed.

Lemma parse_digits_hex ns : forall acc,
  Forall (fun n => 0 <= n < 16) ns ->
  parse_digits (Some acc) (map hex_digit ns)
  = Some (fold_left (fun a n => 16 * a + n) ns acc).
Proof.
  induction ns as [|n ns IH]; intros acc H; simpl; [reflexivity|].
  inversion H; subst. rewrite hex_value_digit by assumption. simpl.
  apply IH. assumption.
Qed.

Lemma parseInt16_hex_word w : 0 <= w < 2 ^ 32 ->
  parseInt16 (string_of_list_ascii (hex_word w)) = JsInt w.
Proof.
  intros H. unfold parseInt16. rewrite list_ascii_of_string_of_list_ascii.
  pose proof (nibbles_value w H) as Hv.
  assert (Forall (fun n => 0 <= n < 16) (nibbles w)) as Hr.
  { unfold nibbles. apply Forall_map, Forall_forall. intros i _. apply nibble_range. }
  unfold hex_word. remember (nibbles w) as ns eqn:Hns.
  assert (length ns = 8%nat) as Hlen by (subst ns; reflexivity).
  clear Hns.
  destruct ns as [|n7 [|n6 ns]]; try discriminate Hlen.
  inversion Hr as [|? ? R7 Hr']; subst. inversion Hr' as [|? ? R6 Hr'']; subst.
  destruct (hex_digit_plain n7 R7) as (W7 & M7 & P7 & _).
  destruct (hex_digit_plain n6 R6) as (_ & _ & _ & X6 & XX6).
  cbn [map trim_start]. rewrite W7. unfold strip_sign. rewrite M7, P7.
  unfold strip_hex_prefix. rewrite X6, XX6, andb_false_r.
  change (hex_digit n7 :: hex_digit n6 :: map hex_digit ns)
    with (map hex_digit (n7 :: n6 :: ns)).
  cbn [parse_digits map]. rewrite (hex_value_digit n7 R7).
  rewrite (hex_value_digit n6 R6). cbn [default].
  rewrite (parse_digits_hex ns) by assumption.
  cbn [fold_left]. rewrite Z.mul_1_l. reflexivity.
Qed.

Lemma slice0_hex_word (l r : list ascii) :
  length l = 8%nat ->
  slice0 8 (string_of_list_ascii (l ++ r)) = string_of_list_ascii l.
Proof.
  intros H. do 9 (destruct l as [|? l]; try discriminate H).
  cbn [app string_of_list_ascii]. unfold slice0. cbn [substring].
  destruct (string_of_list_ascii r); reflexivity.
Qed.

Lemma jobIdToLockId_word jobId :
  exists k, jobIdToLockId jobId = JsInt k /\ 0 <= k < 2 ^ 32
    /\ head (digest_words (bytes_of_string jobId)) = Some k.
Proof.
  unfold jobIdToLockId, sha256_hex.
  destruct (digest_word_list (bytes_of_string jobId)) as [Hlen Hall].
  destruct (digest_words (bytes_of_string jobId)) as [|k ws]; [discriminate Hlen|].
  exists k. inversion Hall as [|? ? Hk _]; subst.
  cbn [map concat]. rewrite slice0_hex_word by reflexivity.
  rewrite parseInt16_hex_word by exact Hk. auto.
Qed.

End LockKeyFacts.

(** ** The resolver *)

Lemma with_trace_nil w : with_trace w [] = w.
Proof. destruct w. unfold with_trace. simpl. by rewrite app_nil_r. Qed.

Lemma with_trace_app w a b : with_trace (with_trace w a) b = with_trace w (a ++ b).
Proof. unfold with_trace. simpl. by rewrite app_assoc. Qed.

Lemma truthy_spec e : truthy (Some e) = bool_decide (e ≠ ""%string).
Proof. destruct e; reflexivity. Qed.

Lemma record_assign_ne key value acc k :
  key <> k -> record_assign key value acc !! k = acc !! k.
Proof.
  intros H. unfold record_assign. destruct (decide _); [done|].
  by rewrite lookup_insert_ne.
Qed.

Lemma record_assign_eq key value acc :
  key <> "__proto__"%string -> record_assign key value acc !! key = Some value.
Proof.
  intros H. unfold record_assign. destruct (decide _); [done|].
  by rewrite lookup_insert_eq.
Qed.

Lemma record_assign_inv key value acc k c :
  record_assign key value acc !! k = Some c ->
  (key = k /\ c = value /\ key <> "__proto__"%string) \/ acc !! k = Some c.
Proof.
  unfold record_assign. destruct (decide _) as [|Hp]; [by right|].
  destruct (decide (key = k)) as [<-|Hne].
  - rewrite lookup_insert_eq. intros H. inversion H. by left.
  - rewrite lookup_insert_ne by done. by right.
Qed.

Lemma resolveRequirement_run run acc ji w :
  resolveRequirement run acc ji w =
  (Ok (record_assign (ji_key ji)
         (spec_outcome (store w) (found_run run) (ji_integration ji)) acc),
   with_trace w (spec_lookups (found_run run) (ji_integration ji))).
Proof.
  unfold resolveRequirement, spec_outcome, spec_lookups, spec_lookup.
  destruct (integration_authSource (ji_integration ji)) eqn:Ha; simpl.
  - destruct (run_externalAccountId (found_run run)) as [[|c e]|]; simpl;
      unfold bind, integrationConnection_findFirst, bind, log, get_store, ret; simpl;
      match goal with |- context [find ?f ?l] => destruct (find f l) end; reflexivity.
  - by rewrite with_trace_nil.
  - by rewrite with_trace_nil.
Qed.

Lemma foldM_resolve run l : forall acc w,
  foldM (resolveRequirement run) acc l w =
  (Ok (resolve_all (store w) run l acc),
   with_trace w
     (flat_map
        (fun ji => spec_lookups (found_run run) (ji_integration ji)) l)).
Proof.
  induction l as [|ji l IH]; intros acc w; simpl.
  - by rewrite with_trace_nil.
  - unfold bind at 1. rewrite resolveRequirement_run. rewrite IH.
    by rewrite with_trace_app.
Qed.

Lemma resolve_all_cons s run x l acc :
  resolve_all s run (x :: l) acc =
  resolve_all s run l
    (record_assign (ji_key x)
       (spec_outcome s (found_run run) (ji_integration x)) acc).
Proof. reflexivity. Qed.

Lemma resolve_all_other s run l : forall acc k,
  k ∉ map ji_key l -> resolve_all s run l acc !! k = acc !! k.
Proof.
  induction l as [|ji l IH]; intros acc k Hk; [done|].
  simpl in Hk. rewrite not_elem_of_cons in Hk. destruct Hk as [Hne Hk].
  rewrite resolve_all_cons, IH by done. by rewrite record_assign_ne.
Qed.

Lemma resolve_all_lookup s run l : forall acc ji,
  NoDup (map ji_key l) -> ji ∈ l -> ji_key ji <> "__proto__"%string ->
  resolve_all s run l acc !! ji_key ji
  = Some (spec_outcome s (found_run run) (ji_integration ji)).
Proof.
  induction l as [|x l IH]; intros acc ji Hnd Hin Hp;
    [by apply elem_of_nil in Hin|].
  simpl in Hnd. apply NoDup_cons in Hnd as [Hx Hnd].
  rewrite resolve_all_cons.
  apply elem_of_cons in Hin as [->|Hin].
  - rewrite resolve_all_other by done. by rewrite record_assign_eq.
  - by apply IH.
Qed.

Lemma resolve_all_inv s run l : forall acc k c,
  resolve_all s run l acc !! k = Some c ->
  acc !! k = Some c
  \/ (k <> "__proto__"%string
      /\ exists ji, ji ∈ l /\ ji_key ji = k
                    /\ c = spec_outcome s (found_run run) (ji_integration ji)).
Proof.
  induction l as [|x l IH]; intros acc k c H; [by left|].
  rewrite resolve_all_cons in H. apply IH in H as [H|(Hp & ji & Hin & Hk & Hc)].
  - apply record_assign_inv in H as [(Hk & Hc & Hp)|H]; [|by left].
    right. split; [congruence|]. exists x. split; [apply list_elem_of_here|].
    done.
  - right. split; [done|]. exists ji. split; [by apply list_elem_of_further|].
    done.
Qed.

(** The record never has the own property ["__proto__"]. *)
Lemma resolve_all_proto s run l : forall acc,
  acc !! "__proto__"%string = None ->
  resolve_all s run l acc !! "__proto__"%string = None.
Proof.
  intros acc Hacc.
  destruct (resolve_all s run l acc !! "__proto__"%string) as [c|] eqn:H;
    [|done].
  apply resolve_all_inv in H as [H|[Hp _]]; [congruence|done].
Qed.

Lemma resolve_all_missing s run l : forall acc k mr,
  resolve_all s run l acc !! k = Some (missing mr) ->
  acc !! k = Some (missing mr)
  \/ missing_externalAccountId mr = run_externalAccountId (found_run run).
Proof.
  induction l as [|x l IH]; intros acc k mr H; [by left|].
  rewrite resolve_all_cons in H. apply IH in H as [H|H]; [|by right].
  apply record_assign_inv in H as [(_ & H & _)|H]; [|by left].
  right. unfold spec_outcome in H.
  destruct (integration_authSource (ji_integration x)); try discriminate.
  destruct (find _ _); try discriminate. by inversion H.
Qed.

(** C2, counterexample to the claim as written: a run carries the (empty)
    external-account identifier and an EXTERNAL connection with exactly that
    identifier exists, yet the single lookup is of type DEVELOPER and the
    requirement comes out missing. *)
Lemma empty_external_account_takes_developer_lookup :
  let run := found_of (store empty_account_world) empty_account_run in
  run_externalAccountId (found_run run) = Some ""%string
  /\ find (connection_matches (claimed_lookup empty_account_run hosted))
          (integrationConnection (store empty_account_world))
     = Some empty_account_connection
  /\ trace (snd (createRunConnections run empty_account_world))
     = [OpFindFirstConnection
          {| where_integrationId := "I1"; where_connectionType := DEVELOPER;
             where_externalAccountId := None |}]
  /\ trace (snd (createRunConnections run empty_account_world))
     <> [OpFindFirstConnection (claimed_lookup empty_account_run hosted)]
  /\ fst (createRunConnections run empty_account_world)
     = Ok {[ "shop"%string :=
               missing {| missing_connectionType := DEVELOPER;
                          missing_integration := hosted;
                          missing_externalAccountId := Some ""%string |} ]}.
Proof.
  cbv zeta. split; [reflexivity|]. split; [reflexivity|].
  split; [reflexivity|]. split; [discriminate|]. vm_compute. reflexivity.
Qed.

(** C2 (as amended): for a run whose requirement keys are unique within
    its version, the resolver returns a record that, apart from the key
    ["__proto__"], has exactly the requirement keys and gives every
    requirement one outcome: resolved-local for LOCAL,
    resolved-by-resolver for RESOLVER, and for HOSTED the outcome of
    exactly one connection lookup, of type EXTERNAL with the run's exact
    identifier when the run carries a non-empty one and of type DEVELOPER
    otherwise (absent or empty), resolved-hosted when that lookup finds a
    connection and missing, with the connection type of the lookup and the
    run's identifier, when it finds none.  The resolver issues no other
    lookup and writes nothing. *)
Theorem createRunConnections_classifies run w :
  NoDup (map ji_key (found_integrations run)) ->
  exists m,
    createRunConnections run w =
      (Ok m,
       with_trace w
         (flat_map (fun ji => spec_lookups (found_run run) (ji_integration ji))
                   (found_integrations run)))
    /\ (forall k, k <> "__proto__"%string ->
          (k ∈ dom m <-> k ∈ map ji_key (found_integrations run)))
    /\ forall ji, ji ∈ found_integrations run ->
         ji_key ji <> "__proto__"%string ->
         m !! ji_key ji
         = Some (spec_outcome (store w) (found_run run) (ji_integration ji)).
Proof.
  intros Hnd. exists (resolve_all (store w) run (found_integrations run) ∅).
  split; [apply foldM_resolve|]. split.
  - intros k Hp. rewrite elem_of_dom. split.
    + intros [c Hc].
      apply resolve_all_inv in Hc as [Hc|(_ & ji & Hin & <- & _)];
        [by rewrite lookup_empty in Hc|].
      apply list_elem_of_fmap. by exists ji.
    + intros Hk. apply list_elem_of_fmap in Hk as (ji & -> & Hin).
      rewrite resolve_all_lookup by done. by eexists.
  - intros ji Hin Hp. by apply resolve_all_lookup.
Qed.

(** C2, witness: the classification at a run with one hosted requirement. *)
Lemma createRunConnections_classifies_witness :
  exists m,
    createRunConnections missing_found missing_world =
      (Ok m,
       with_trace missing_world
         (flat_map (fun ji => spec_lookups (found_run missing_found) (ji_integration ji))
                   (found_integrations missing_found)))
    /\ (forall k, k <> "__proto__"%string ->
          (k ∈ dom m <-> k ∈ map ji_key (found_integrations missing_found)))
    /\ forall ji, ji ∈ found_integrations missing_found ->
         ji_key ji <> "__proto__"%string ->
         m !! ji_key ji
         = Some (spec_outcome (store missing_world) (found_run missing_found)
                              (ji_integration ji)).
Proof.
  apply (createRunConnections_classifies missing_found missing_world).
  vm_compute. apply NoDup_cons. split; [apply not_elem_of_nil|apply NoDup_nil_2].
Defined.

(** ** Running the service *)

Ltac unfold_m :=
  unfold findRun, jobRun_update_queued, jobRun_update_waiting,
    tx_advisory_xact_lock, tx_jobCounter_upsert, ResumeRunService_enqueue,
    workerQueue_enqueue, integrationConnection_findFirst, transaction,
    fail_at, bind, log, get_store, put_store, get_pending, put_pending,
    ret, throw in *.

Lemma findRun_run id w :
  findRun id w =
  (Ok (match jobRun (store w) !! id with
       | Some r => Some {| found_run := r;
                           found_integrations :=
                             default [] (jobIntegration (store w) !! run_versionId r) |}
       | None => None
       end),
   with_trace w [OpFindRun id]).
Proof. reflexivity. Qed.

Lemma hasMissingConnections_true (m : gmap string RunConnectionResult) :
  hasMissingConnections m = true <-> exists k mr, m !! k = Some (missing mr).
Proof.
  unfold hasMissingConnections. rewrite existsb_exists. split.
  - intros (c & Hin & Hc). apply in_map_iff in Hin as ([k c'] & <- & Hin).
    apply list_elem_of_In, elem_of_map_to_list in Hin.
    simpl in Hc. destruct c' as [| | |mr]; try discriminate. eauto.
  - intros (k & mr & Hk). exists (missing mr). split; [|done].
    apply in_map_iff. exists (k, missing mr). split; [done|].
    by apply list_elem_of_In, elem_of_map_to_list.
Qed.

Lemma hasMissingConnections_false (m : gmap string RunConnectionResult) :
  hasMissingConnections m = false <-> forall k mr, m !! k <> Some (missing mr).
Proof.
  rewrite <- not_true_iff_false, hasMissingConnections_true. split.
  - intros H k mr Hk. apply H. eauto.
  - intros H (k & mr & Hk). by apply (H k mr).
Qed.

Lemma startRun_success fault now id run m w w' :
  startRun fault now id run m w = (Ok tt, w') ->
  exists k r,
    fault = NoFault
    /\ jobIdToLockId (run_jobId (found_run run)) = JsInt k
    /\ jobRun (store w) !! id = Some r
    /\ let n := match jobCounter (store w) !! run_jobId (found_run run) with
                | Some c => c + 1
                | None => 1
                end in
       w' = {| store :=
                 {| jobRun := <[id := queued r n now]> (jobRun (store w));
                    jobIntegration := jobIntegration (store w);
                    integrationConnection := integrationConnection (store w);
                    jobCounter :=
                      <[run_jobId (found_run run) := n]> (jobCounter (store w));
                    missingConnection := missingConnection (store w);
                    runConnection := runConnection (store w)
                      ++ omap (runConnectionCreate id) (map_to_list m);
                    workerJobs := workerJobs (store w) ++ [resumeRun (run_id r)] |};
               pending := pending w;
               trace := trace w ++
                 [OpAdvisoryXactLock (JsInt k);
                  OpJobCounterUpsert (run_jobId (found_run run));
                  OpJobRunUpdate id; OpResumeRunEnqueue (run_id r); OpCommit] |}.
Proof.
  unfold startRun.
  destruct (LockKeyFacts.jobIdToLockId_word (run_jobId (found_run run))) as (k & Hk & _).
  rewrite Hk. intros H. exists k.
  destruct (jobRun (store w) !! id) as [r|] eqn:Hr.
  - exists r. destruct fault; unfold_m; simpl in H; rewrite ?Hr in H; simpl in H;
      try discriminate H.
    inversion H; subst; clear H. repeat split; try done.
    simpl. rewrite <- !app_assoc. reflexivity.
  - exfalso. destruct fault; unfold_m; simpl in H; rewrite ?Hr in H; simpl in H;
      discriminate H.
Qed.

Lemma startRun_no_fault now id run m w r :
  jobRun (store w) !! id = Some r ->
  exists w', startRun NoFault now id run m w = (Ok tt, w').
Proof.
  intros Hr. unfold startRun.
  destruct (LockKeyFacts.jobIdToLockId_word (run_jobId (found_run run))) as (k & Hk & _).
  rewrite Hk. unfold_m. simpl. rewrite Hr. simpl. eauto.
Qed.

Lemma startRun_jobRun_other fault now id run m w id' :
  id' <> id ->
  jobRun (store (snd (startRun fault now id run m w))) !! id'
  = jobRun (store w) !! id'.
Proof.
  intros Hne. unfold startRun.
  destruct (LockKeyFacts.jobIdToLockId_word (run_jobId (found_run run))) as (k & Hk & _).
  rewrite Hk.
  destruct (jobRun (store w) !! id) as [r|] eqn:Hr;
    destruct fault; unfold_m; simpl; rewrite ?Hr; simpl;
    rewrite ?lookup_insert_ne by done; reflexivity.
Qed.

Lemma startRun_early_failure fault now id run m w :
  fault = FailLock \/ fault = FailUpsert \/ fault = FailRunUpdate ->
  exists e w',
    startRun fault now id run m w = (Throw e, w')
    /\ store w' = store w /\ pending w' = pending w.
Proof.
  intros Hf. unfold startRun.
  destruct (LockKeyFacts.jobIdToLockId_word (run_jobId (found_run run))) as (k & Hk & _).
  rewrite Hk.
  destruct Hf as [->|[->| ->]]; unfold_m; simpl; eauto.
Qed.

Lemma startRun_late_failure fault now id run m w r :
  fault = FailEnqueue \/ fault = FailCommit ->
  jobRun (store w) !! id = Some r ->
  exists e w' r',
    startRun fault now id run m w = (Throw e, w')
    /\ jobRun (store w') !! id = Some r'
    /\ run_status r' = QUEUED
    /\ jobCounter (store w') = jobCounter (store w)
    /\ workerJobs (store w') = workerJobs (store w).
Proof.
  intros Hf Hr. unfold startRun.
  destruct (LockKeyFacts.jobIdToLockId_word (run_jobId (found_run run))) as (k & Hk & _).
  rewrite Hk.
  destruct Hf as [->| ->]; unfold_m; simpl; rewrite Hr; simpl;
    eexists _, _, _; (split; [reflexivity|]); simpl;
    rewrite lookup_insert_eq; done.
Qed.

Lemma notify_run l : forall w,
  foldM
    (fun _ missingConnection =>
       if decide (size (mc_runs (snd missingConnection)) = 1%nat) then
         workerQueue_enqueue (missingConnectionCreated (fst missingConnection))
       else ret tt)
    tt l w
  = (Ok tt,
     {| store :=
          {| jobRun := jobRun (store w);
             jobIntegration := jobIntegration (store w);
             integrationConnection := integrationConnection (store w);
             jobCounter := jobCounter (store w);
             missingConnection := missingConnection (store w);
             runConnection := runConnection (store w);
             workerJobs := workerJobs (store w) ++ notifications l |};
        pending := pending w;
        trace := trace w ++ map OpWorkerQueueEnqueue (notifications l) |}).
Proof.
  induction l as [|mc l IH]; intros w.
  - simpl. unfold ret, notifications. simpl. rewrite !app_nil_r. by destruct w as [[]].
  - cbn [foldM]. unfold bind at 1. unfold notifications. rewrite filter_cons.
    destruct (decide (size (mc_runs mc.2) = 1%nat)) as [Hs|Hs].
    + unfold workerQueue_enqueue at 1. unfold_m. simpl. rewrite IH. simpl.
      unfold notifications. rewrite <- !app_assoc. reflexivity.
    + unfold ret at 1. rewrite IH. reflexivity.
Qed.

Lemma handleMissingConnections_run id m w r :
  jobRun (store w) !! id = Some r ->
  handleMissingConnections id m w =
  (Ok tt,
   {| store :=
        {| jobRun := <[id := waiting r]> (jobRun (store w));
           jobIntegration := jobIntegration (store w);
           integrationConnection := integrationConnection (store w);
           jobCounter := jobCounter (store w);
           missingConnection := tracker_table id m (missingConnection (store w));
           runConnection := runConnection (store w);
           workerJobs := workerJobs (store w)
             ++ notifications
                  (linked id (tracker_table id m (missingConnection (store w)))) |};
      pending := pending w;
      trace := trace w ++ OpJobRunUpdate id
        :: map OpWorkerQueueEnqueue
             (notifications
                (linked id (tracker_table id m (missingConnection (store w))))) |}).
Proof.
  intros Hr. unfold handleMissingConnections. unfold bind at 1.
  unfold jobRun_update_waiting. unfold_m. simpl. rewrite Hr. simpl.
  rewrite notify_run. simpl. rewrite <- app_assoc. reflexivity.
Qed.

Lemma handleMissingConnections_absent id m w :
  jobRun (store w) !! id = None ->
  exists e w', handleMissingConnections id m w = (Throw e, w') /\ store w' = store w.
Proof.
  intros Hr. unfold handleMissingConnections. unfold bind at 1.
  unfold jobRun_update_waiting. unfold_m. simpl. rewrite Hr. simpl. eauto.
Qed.

Lemma handleMissingConnections_success id m w w' :
  handleMissingConnections id m w = (Ok tt, w') ->
  exists r, jobRun (store w) !! id = Some r.
Proof.
  intros H. destruct (jobRun (store w) !! id) as [r|] eqn:Hr; [eauto|].
  destruct (handleMissingConnections_absent id m w Hr) as (e & w0 & He & _).
  congruence.
Qed.

Lemma runIsStartable_spec s r :
  runIsStartable (found_of s r) = true <-> startable r.
Proof.
  unfold runIsStartable, startable. simpl. rewrite bool_decide_eq_true.
  rewrite !elem_of_cons, elem_of_nil. tauto.
Qed.

Lemma call_not_found fault now id w :
  jobRun (store w) !! id = None ->
  call fault now id w = (Ok tt, with_trace w [OpFindRun id]).
Proof.
  intros H. unfold call. unfold bind at 1. rewrite findRun_run, H. reflexivity.
Qed.

Lemma call_not_startable fault now id w r :
  jobRun (store w) !! id = Some r -> ~ startable r ->
  call fault now id w = (Ok tt, with_trace w [OpFindRun id]).
Proof.
  intros H Hs. unfold call. unfold bind at 1. rewrite findRun_run, H.
  fold (found_of (store w) r).
  destruct (runIsStartable (found_of (store w) r)) eqn:E.
  - apply runIsStartable_spec in E. contradiction.
  - reflexivity.
Qed.

Lemma call_startable fault now id w r :
  jobRun (store w) !! id = Some r -> startable r ->
  exists m w1,
    createRunConnections (found_of (store w) r) (with_trace w [OpFindRun id])
      = (Ok m, w1)
    /\ store w1 = store w /\ pending w1 = pending w
    /\ call fault now id w =
       if hasMissingConnections m then handleMissingConnections id m w1
       else startRun fault now id (found_of (store w) r) m w1.
Proof.
  intros H Hs. eexists _, _.
  split; [unfold createRunConnections; apply foldM_resolve|].
  split; [reflexivity|]. split; [reflexivity|].
  unfold call. unfold bind at 1. rewrite findRun_run, H.
  fold (found_of (store w) r).
  apply (runIsStartable_spec (store w)) in Hs. rewrite Hs.
  change (negb true) with false. cbv iota.
  unfold bind at 1. unfold createRunConnections. rewrite foldM_resolve.
  destruct (hasMissingConnections _); reflexivity.
Qed.

(** ** The queue transition *)

(** C1, the code at a failing input: the transaction of [#startRun] fails
    after the run update (the dispatch throws, or the commit fails); the
    counter upsert and the dispatch are rolled back, but the run is left
    QUEUED with sequence number 1, a queued-at timestamp and its binding
    record, because the update went through the outer client. *)
Theorem startRun_failure_leaves_partial_state :
  let before := store local_world in
  let failed_enqueue := call FailEnqueue 100 "R1" local_world in
  let failed_commit := call FailCommit 100 "R1" local_world in
  jobRun before !! "R1"%string = Some (run_with PENDING None)
  /\ fst failed_enqueue = Throw "enqueue failed"
  /\ jobRun (store (snd failed_enqueue)) !! "R1"%string
     = Some {| run_id := "R1"; run_jobId := "J"; run_versionId := "V";
               run_status := QUEUED; run_externalAccountId := None;
               run_number := Some 1; run_queuedAt := Some 100 |}
  /\ runConnection (store (snd failed_enqueue))
     = [ {| rc_runId := "R1"; rc_key := "shop"; rc_connectionId := None;
            rc_integrationId := "I2"; rc_authSource := LOCAL |} ]
  /\ jobCounter (store (snd failed_enqueue)) = jobCounter before
  /\ workerJobs (store (snd failed_enqueue)) = workerJobs before
  /\ fst failed_commit = Throw "transaction failed"
  /\ store (snd failed_commit) = store (snd failed_enqueue).
Proof. vm_compute. repeat split; reflexivity. Qed.

(** C4: a queue transition that succeeds first takes the advisory lock of
    the job's lock key, then upserts the job's counter, to 1 when the job
    had no counter and to the stored value plus 1 otherwise, and the run's
    sequence number is the value of the counter after that upsert. *)
Theorem startRun_assigns_sequence_number fault now id run m w w' :
  startRun fault now id run m w = (Ok tt, w') ->
  exists k n r' rest,
    jobIdToLockId (run_jobId (found_run run)) = JsInt k
    /\ trace w' = trace w
         ++ OpAdvisoryXactLock (JsInt k)
         :: OpJobCounterUpsert (run_jobId (found_run run)) :: rest
    /\ match jobCounter (store w) !! run_jobId (found_run run) with
       | None => n = 1
       | Some c => n = c + 1
       end
    /\ jobCounter (store w') !! run_jobId (found_run run) = Some n
    /\ jobRun (store w') !! id = Some r'
    /\ run_status r' = QUEUED
    /\ run_number r' = Some n.
Proof.
  intros H. apply startRun_success in H as (k & r & _ & Hk & Hr & ->).
  exists k,
    (match jobCounter (store w) !! run_jobId (found_run run) with
     | Some c => c + 1
     | None => 1
     end).
  eexists _, _. split; [exact Hk|]. simpl.
  split; [reflexivity|]. split.
  - destruct (jobCounter (store w) !! run_jobId (found_run run)); reflexivity.
  - rewrite !lookup_insert_eq. done.
Qed.

(** C4, witness: the first run queued for a job. *)
Lemma startRun_assigns_sequence_number_witness :
  exists k n r' rest,
    jobIdToLockId "J" = JsInt k
    /\ trace (snd (startRun NoFault 100 "R1" local_found local_connections local_world))
       = trace local_world
         ++ OpAdvisoryXactLock (JsInt k) :: OpJobCounterUpsert "J" :: rest
    /\ match jobCounter (store local_world) !! "J"%string with
       | None => n = 1
       | Some c => n = c + 1
       end
    /\ jobCounter (store (snd (startRun NoFault 100 "R1" local_found
                                  local_connections local_world))) !! "J"%string
       = Some n
    /\ jobRun (store (snd (startRun NoFault 100 "R1" local_found
                              local_connections local_world))) !! "R1"%string
       = Some r'
    /\ run_status r' = QUEUED
    /\ run_number r' = Some n.
Proof.
  apply (startRun_assigns_sequence_number NoFault 100 "R1" local_found
           local_connections local_world).
  vm_compute. reflexivity.
Defined.

Lemma locks_taken_app a b : locks_taken (a ++ b) = locks_taken a ++ locks_taken b.
Proof. apply omap_app. Qed.

Lemma startRun_locks fault now id run m w :
  locks_taken (trace (snd (startRun fault now id run m w)))
  = locks_taken (trace w) ++ [jobIdToLockId (run_jobId (found_run run))].
Proof.
  unfold startRun.
  destruct (LockKeyFacts.jobIdToLockId_word (run_jobId (found_run run))) as (k & Hk & _).
  rewrite Hk.
  destruct (jobRun (store w) !! id) as [r|] eqn:Hr;
    destruct fault; unfold_m; simpl; rewrite ?Hr; simpl;
    rewrite <- ?app_assoc; rewrite locks_taken_app; reflexivity.
Qed.

(** C8: [jobIdToLockId] maps every job identity to one numeric lock key,
    the first 32 bits of the SHA-256 digest of the identity; the key a
    queue transition locks is that value whatever the store, the run, the
    clock and the failure are, so two transitions for the same job
    identity lock the same key. *)
Theorem jobIdToLockId_pure :
  (forall jobId, exists k,
     jobIdToLockId jobId = JsInt k /\ 0 <= k < 2 ^ 32
     /\ head (Sha256.digest_words (Sha256.bytes_of_string jobId)) = Some k)
  /\ (forall fault now id run m w,
        locks_taken (trace (snd (startRun fault now id run m w)))
        = locks_taken (trace w) ++ [jobIdToLockId (run_jobId (found_run run))])
  /\ (forall fault1 now1 id1 run1 m1 w1 fault2 now2 id2 run2 m2 w2,
        run_jobId (found_run run1) = run_jobId (found_run run2) ->
        last (locks_taken (trace (snd (startRun fault1 now1 id1 run1 m1 w1))))
        = last (locks_taken (trace (snd (startRun fault2 now2 id2 run2 m2 w2))))).
Proof.
  split; [exact LockKeyFacts.jobIdToLockId_word|]. split; [exact startRun_locks|].
  intros. rewrite !startRun_locks, !last_snoc. congruence.
Qed.

(** C8, witness: two transitions for the job ["J"] in different stores. *)
Lemma jobIdToLockId_pure_witness :
  last (locks_taken (trace (snd (startRun NoFault 100 "R1" local_found
                                   local_connections local_world))))
  = last (locks_taken (trace (snd (startRun FailCommit 200 "R1" missing_found
                                     missing_connections missing_world)))).
Proof.
  apply (proj2 (proj2 jobIdToLockId_pure)). reflexivity.
Defined.

(** ** The activation gate *)

(** C3: [call] on an absent run or on a run that is neither PENDING nor
    WAITING_ON_CONNECTIONS returns without an error and without a write;
    otherwise it runs the resolver and, with zero missing outcomes, takes
    the queue transition, which leaves the run QUEUED unless the
    transaction fails, and with one or more missing outcomes takes the
    missing-connection tracker, which leaves the run
    WAITING_ON_CONNECTIONS. *)
Theorem call_activation_gate fault now id w :
  ((jobRun (store w) !! id = None
    \/ exists r, jobRun (store w) !! id = Some r /\ ~ startable r) ->
   call fault now id w = (Ok tt, with_trace w [OpFindRun id]))
  /\
  (forall r, jobRun (store w) !! id = Some r -> startable r ->
   exists m w1,
     createRunConnections (found_of (store w) r) (with_trace w [OpFindRun id])
       = (Ok m, w1)
     /\ store w1 = store w
     /\ ((forall k mr, m !! k <> Some (missing mr)) ->
         call fault now id w = startRun fault now id (found_of (store w) r) m w1
         /\ (fault = NoFault ->
             exists w' r', call fault now id w = (Ok tt, w')
               /\ jobRun (store w') !! id = Some r'
               /\ run_status r' = QUEUED))
     /\ ((exists k mr, m !! k = Some (missing mr)) ->
         call fault now id w = handleMissingConnections id m w1
         /\ exists w' r', call fault now id w = (Ok tt, w')
              /\ jobRun (store w') !! id = Some r'
              /\ run_status r' = WAITING_ON_CONNECTIONS)).
Proof.
  split.
  - intros [H|(r & H & Hs)].
    + by apply call_not_found.
    + by apply (call_not_startable _ _ _ _ r).
  - intros r H Hs.
    destruct (call_startable fault now id w r H Hs) as (m & w1 & Hm & Hst & _ & Hc).
    exists m, w1. split; [exact Hm|]. split; [exact Hst|]. split.
    + intros Hnone. apply hasMissingConnections_false in Hnone.
      rewrite Hnone in Hc. split; [exact Hc|]. intros ->.
      assert (jobRun (store w1) !! id = Some r) as H1 by (by rewrite Hst).
      destruct (startRun_no_fault now id (found_of (store w) r) m w1 r H1) as [w' Hw'].
      exists w'.
      destruct (startRun_success _ _ _ _ _ _ _ Hw')
        as (k & r0 & _ & _ & _ & ->).
      eexists. split; [by rewrite Hc|]. simpl. rewrite lookup_insert_eq. done.
    + intros Hsome. apply hasMissingConnections_true in Hsome.
      rewrite Hsome in Hc. split; [exact Hc|].
      assert (jobRun (store w1) !! id = Some r) as H1 by (by rewrite Hst).
      rewrite (handleMissingConnections_run id m w1 r H1) in Hc.
      eexists _, _. split; [exact Hc|]. simpl. rewrite lookup_insert_eq. done.
Qed.

(** C3, witness: the gate at a pending run with one LOCAL requirement. *)
Lemma call_activation_gate_witness :
  exists m w1,
    createRunConnections local_found (with_trace local_world [OpFindRun "R1"])
      = (Ok m, w1)
    /\ store w1 = store local_world
    /\ ((forall k mr, m !! k <> Some (missing mr)) ->
        call NoFault 100 "R1" local_world = startRun NoFault 100 "R1" local_found m w1
        /\ (NoFault = NoFault ->
            exists w' r', call NoFault 100 "R1" local_world = (Ok tt, w')
              /\ jobRun (store w') !! "R1"%string = Some r'
              /\ run_status r' = QUEUED))
    /\ ((exists k mr, m !! k = Some (missing mr)) ->
        call NoFault 100 "R1" local_world = handleMissingConnections "R1" m w1
        /\ exists w' r', call NoFault 100 "R1" local_world = (Ok tt, w')
             /\ jobRun (store w') !! "R1"%string = Some r'
             /\ run_status r' = WAITING_ON_CONNECTIONS).
Proof.
  apply (proj2 (call_activation_gate NoFault 100 "R1" local_world)
               (run_with PENDING None)).
  - vm_compute. reflexivity.
  - left. reflexivity.
Defined.

Lemma spec_lookups_not_queue run i :
  forallb (fun op => negb (queue_transition_op op)) (spec_lookups run i) = true.
Proof. unfold spec_lookups. by destruct (integration_authSource i). Qed.

Lemma forallb_flat_map {A B} (p : B -> bool) (f : A -> list B) l :
  (forall a, forallb p (f a) = true) -> forallb p (flat_map f l) = true.
Proof.
  intros H. induction l as [|a l IH]; simpl; [done|].
  by rewrite forallb_app, H, IH.
Qed.

Lemma forallb_map_true {A B} (p : B -> bool) (f : A -> B) l :
  (forall a, p (f a) = true) -> forallb p (map f l) = true.
Proof.
  intros H. induction l as [|a l IH]; simpl; [done|]. by rewrite H, IH.
Qed.

Lemma notifications_not_resume l rid : resumeRun rid ∉ notifications l.
Proof.
  unfold notifications. intros H. apply list_elem_of_fmap in H as (kv & Hkv & _).
  discriminate.
Qed.

(** When the record the resolver returns for a startable run holds a
    missing outcome, [call] leaves the run WAITING_ON_CONNECTIONS with its
    sequence number and queued-at timestamp as they were, leaves the job
    counters and the run-connection records as they were, enqueues no
    dispatch, and issues no lock, counter upsert, dispatch or transaction
    operation. *)
Lemma missing_outcome_parks_run fault now id w r m w1 :
  jobRun (store w) !! id = Some r ->
  startable r ->
  createRunConnections (found_of (store w) r) (with_trace w [OpFindRun id])
    = (Ok m, w1) ->
  (exists k mr, m !! k = Some (missing mr)) ->
  exists w' r' ops,
    call fault now id w = (Ok tt, w')
    /\ jobRun (store w') !! id = Some r'
    /\ run_status r' = WAITING_ON_CONNECTIONS
    /\ run_number r' = run_number r
    /\ run_queuedAt r' = run_queuedAt r
    /\ jobCounter (store w') = jobCounter (store w)
    /\ runConnection (store w') = runConnection (store w)
    /\ pending w' = pending w
    /\ (forall rid, resumeRun rid ∈ workerJobs (store w') ->
                    resumeRun rid ∈ workerJobs (store w))
    /\ trace w' = trace w ++ ops
    /\ forallb (fun op => negb (queue_transition_op op)) ops = true.
Proof.
  intros Hr Hs Hm Hsome.
  destruct (call_startable fault now id w r Hr Hs) as (m' & w1' & Hm' & Hst & Hp & Hc).
  rewrite Hm in Hm'. inversion Hm'; subst m' w1'; clear Hm'.
  apply hasMissingConnections_true in Hsome. rewrite Hsome in Hc.
  assert (jobRun (store w1) !! id = Some r) as H1 by (by rewrite Hst).
  rewrite (handleMissingConnections_run id m w1 r H1) in Hc.
  unfold createRunConnections in Hm. rewrite foldM_resolve in Hm.
  inversion Hm as [[Hm1 Hw1]]. 
  eexists _, _, _. split; [exact Hc|]. simpl. rewrite lookup_insert_eq.
  rewrite Hst, Hp.
  repeat (split; [reflexivity|]). split; [|split].
  - intros rid Hin. apply elem_of_app in Hin as [Hin|Hin]; [done|].
    by apply notifications_not_resume in Hin.
  - rewrite <- Hw1. simpl. rewrite <- !app_assoc. reflexivity.
  - simpl. rewrite forallb_app. apply andb_true_iff. split.
    + apply forallb_flat_map. intros ji. apply spec_lookups_not_queue.
    + simpl. rewrite forallb_map_true; done.
Qed.

(** A pending run whose hosted requirement, keyed ["shop"], has no
    connection. *)
Example missing_outcome_parks_run_shop :
  exists w' r' ops,
    call NoFault 100 "R1" missing_world = (Ok tt, w')
    /\ jobRun (store w') !! "R1"%string = Some r'
    /\ run_status r' = WAITING_ON_CONNECTIONS
    /\ run_number r' = run_number (run_with PENDING None)
    /\ run_queuedAt r' = run_queuedAt (run_with PENDING None)
    /\ jobCounter (store w') = jobCounter (store missing_world)
    /\ runConnection (store w') = runConnection (store missing_world)
    /\ pending w' = pending missing_world
    /\ (forall rid, resumeRun rid ∈ workerJobs (store w') ->
                    resumeRun rid ∈ workerJobs (store missing_world))
    /\ trace w' = trace missing_world ++ ops
    /\ forallb (fun op => negb (queue_transition_op op)) ops = true.
Proof.
  apply (missing_outcome_parks_run NoFault 100 "R1" missing_world
           (run_with PENDING None) missing_connections
           (snd (createRunConnections missing_found
                   (with_trace missing_world [OpFindRun "R1"])))).
  - vm_compute. reflexivity.
  - left. reflexivity.
  - vm_compute. reflexivity.
  - exists "shop"%string. eexists. vm_compute. reflexivity.
Qed.

(** C6, the code at a failing input: the only requirement of a pending run
    is HOSTED and has no connection, so it resolves to missing, but its
    key is ["__proto__"].  The record of the resolver has no entry for
    it, [call] takes the queue transition, and the run is left QUEUED with
    sequence number 1 and a queued-at timestamp, the counter of its job is
    consumed and the run is dispatched; no missing connection is recorded.
    The same run with the requirement keyed ["shop"] is left
    WAITING_ON_CONNECTIONS. *)
Theorem missing_proto_requirement_is_queued :
  let before := store proto_world in
  let r := run_with PENDING None in
  let after := store (snd (call NoFault 100 "R1" proto_world)) in
  jobRun before !! "R1"%string = Some r
  /\ found_integrations (found_of before r) = [proto_requirement]
  /\ spec_outcome before r (ji_integration proto_requirement)
     = missing {| missing_connectionType := DEVELOPER;
                  missing_integration := hosted;
                  missing_externalAccountId := None |}
  /\ fst (createRunConnections (found_of before r) proto_world) = Ok ∅
  /\ fst (call NoFault 100 "R1" proto_world) = Ok tt
  /\ jobRun after !! "R1"%string = Some (queued r 1 100)
  /\ jobCounter after !! "J"%string = Some 1
  /\ workerJobs after = [resumeRun "R1"]
  /\ missingConnection after = ∅
  /\ runConnection after = []
  /\ (run_status
        <$> jobRun (store (snd (call NoFault 100 "R1" missing_world)))
            !! "R1"%string)
     = Some WAITING_ON_CONNECTIONS.
Proof. cbv zeta. vm_compute. repeat split; reflexivity. Qed.


Lemma call_jobRun_other fault now id w id' :
  id' <> id ->
  jobRun (store (snd (call fault now id w))) !! id' = jobRun (store w) !! id'.
Proof.
  intros Hne. destruct (jobRun (store w) !! id) as [r|] eqn:Hr.
  - destruct (decide (run_status r = PENDING
                      \/ run_status r = WAITING_ON_CONNECTIONS)) as [Hs|Hs].
    + destruct (call_startable fault now id w r Hr Hs) as (m & w1 & _ & Hst & _ & Hc).
      rewrite Hc. assert (jobRun (store w1) !! id = Some r) as H1 by (by rewrite Hst).
      destruct (hasMissingConnections m).
      * rewrite (handleMissingConnections_run id m w1 r H1). simpl.
        rewrite lookup_insert_ne by done. by rewrite Hst.
      * rewrite startRun_jobRun_other by done. by rewrite Hst.
    + by rewrite (call_not_startable fault now id w r Hr Hs).
  - by rewrite (call_not_found fault now id w Hr).
Qed.




(** ** The missing-connection tracker *)

Lemma find_row_some (k : MissingConnectionWhere)
    (table : gmap string MissingConnection) mcId row :
  find (fun kv => mc_matches k (snd kv)) (map_to_list table) = Some (mcId, row) ->
  table !! mcId = Some row /\ mc_matches k row = true.
Proof.
  intros H. apply find_some in H as [Hin Hm].
  by apply list_elem_of_In, elem_of_map_to_list in Hin.
Qed.

Lemma find_row_none (k : MissingConnectionWhere)
    (table : gmap string MissingConnection) :
  find (fun kv => mc_matches k (snd kv)) (map_to_list table) = None ->
  forall mcId row, table !! mcId = Some row -> mc_matches k row = false.
Proof.
  intros H mcId row Hrow.
  apply (find_none _ _ H (mcId, row)).
  by apply list_elem_of_In, elem_of_map_to_list.
Qed.

Lemma fresh_lookup (table : gmap string MissingConnection) :
  table !! fresh (dom table) = None.
Proof. apply not_elem_of_dom, is_fresh. Qed.

Lemma mc_matches_connect k id row :
  mc_matches k (mc_connect id row) = mc_matches k row.
Proof. reflexivity. Qed.

(** Every row stays in the table, under its id and with its key, and
    keeps the runs it had. *)
Lemma connectOrCreate_keeps id table e mcId row :
  table !! mcId = Some row ->
  exists row',
    connectOrCreate id table e !! mcId = Some row'
    /\ (forall k, mc_matches k row' = mc_matches k row)
    /\ mc_runs row ⊆ mc_runs row'
    /\ mc_runs row' ⊆ {[id]} ∪ mc_runs row.
Proof.
  intros Hrow. unfold connectOrCreate.
  destruct (find _ _) as [[mcId0 row0]|] eqn:Hf.
  - apply find_row_some in Hf as [H0 _].
    destruct (decide (mcId0 = mcId)) as [->|Hne].
    + rewrite lookup_insert_eq. rewrite Hrow in H0. inversion H0; subst row0.
      eexists. split; [reflexivity|]. split; [reflexivity|]. simpl. set_solver.
    + rewrite lookup_insert_ne by done. exists row. set_solver.
  - rewrite lookup_insert_ne.
    + exists row. set_solver.
    + intros Heq. pose proof (fresh_lookup table) as Hfr. rewrite Heq in Hfr. congruence.
Qed.

Lemma connectOrCreate_has_row id table mr :
  has_row (connectOrCreate id table (connectOrCreate_entry mr))
          (fst (connectOrCreate_entry mr)) id.
Proof.
  unfold connectOrCreate.
  destruct (find _ _) as [[mcId0 row0]|] eqn:Hf.
  - apply find_row_some in Hf as [H0 Hm].
    exists mcId0, (mc_connect id row0). rewrite lookup_insert_eq.
    split; [done|]. split; [done|]. simpl. set_solver.
  - eexists _, _. rewrite lookup_insert_eq. split; [done|]. split.
    + unfold mc_matches. simpl. by rewrite !bool_decide_eq_true_2.
    + simpl. set_solver.
Qed.

Lemma connectOrCreate_has_row_mono id table e k id0 :
  has_row table k id0 -> has_row (connectOrCreate id table e) k id0.
Proof.
  intros (mcId & row & Hrow & Hm & Hin).
  destruct (connectOrCreate_keeps id table e mcId row Hrow)
    as (row' & H' & Hk & Hsub & _).
  exists mcId, row'. rewrite Hk. set_solver.
Qed.

Lemma connectOrCreate_dom_found id table e mcId row :
  table !! mcId = Some row -> mc_matches (fst e) row = true ->
  dom (connectOrCreate id table e) = dom table.
Proof.
  intros Hrow Hm. unfold connectOrCreate.
  destruct (find _ _) as [[mcId0 row0]|] eqn:Hf.
  - apply find_row_some in Hf as [H0 _]. rewrite dom_insert_L.
    apply elem_of_dom_2 in H0. set_solver.
  - pose proof (find_row_none _ _ Hf mcId row Hrow). congruence.
Qed.

Lemma tracker_fold_keeps id es : forall table mcId row,
  table !! mcId = Some row ->
  exists row',
    fold_left (connectOrCreate id) es table !! mcId = Some row'
    /\ (forall k, mc_matches k row' = mc_matches k row)
    /\ mc_runs row ⊆ mc_runs row'
    /\ mc_runs row' ⊆ {[id]} ∪ mc_runs row.
Proof.
  induction es as [|e es IH]; intros table mcId row Hrow; simpl.
  - exists row. set_solver.
  - destruct (connectOrCreate_keeps id table e mcId row Hrow)
      as (row1 & H1 & Hk1 & Hs1 & Hs1').
    destruct (IH _ _ _ H1) as (row2 & H2 & Hk2 & Hs2 & Hs2').
    exists row2. split; [done|]. split; [|set_solver].
    intros k. by rewrite Hk2, Hk1.
Qed.

Lemma tracker_fold_has_row_mono id es : forall table k id0,
  has_row table k id0 -> has_row (fold_left (connectOrCreate id) es table) k id0.
Proof.
  induction es as [|e es IH]; intros table k id0 H; simpl; [done|].
  by apply IH, connectOrCreate_has_row_mono.
Qed.

Lemma tracker_fold_has_row id mrs : forall table mr,
  mr ∈ mrs ->
  has_row (fold_left (connectOrCreate id) (map connectOrCreate_entry mrs) table)
          (fst (connectOrCreate_entry mr)) id.
Proof.
  induction mrs as [|x mrs IH]; intros table mr Hin; [by apply elem_of_nil in Hin|].
  simpl. apply elem_of_cons in Hin as [->|Hin].
  - apply tracker_fold_has_row_mono, connectOrCreate_has_row.
  - by apply IH.
Qed.

Lemma tracker_fold_dom_stable id es : forall table,
  Forall (fun e => exists id0, has_row table (fst e) id0) es ->
  dom (fold_left (connectOrCreate id) es table) = dom table.
Proof.
  induction es as [|e es IH]; intros table H; simpl; [done|].
  inversion H as [|? ? (id0 & mcId & row & Hrow & Hm & _) Hes]; subst.
  rewrite IH.
  - by apply (connectOrCreate_dom_found id table e mcId row).
  - eapply Forall_impl; [exact Hes|]. intros e' [id1 He'].
    exists id1. by apply connectOrCreate_has_row_mono.
Qed.

Lemma missing_results_elem (m : gmap string RunConnectionResult) mr :
  mr ∈ omap missing_of (map snd (map_to_list m))
  <-> exists k, m !! k = Some (missing mr).
Proof.
  rewrite list_elem_of_omap. split.
  - intros (c & Hin & Hc). apply list_elem_of_fmap in Hin as ([k c'] & -> & Hin).
    apply elem_of_map_to_list in Hin. simpl in Hc.
    destruct c'; try discriminate. inversion Hc; subst. eauto.
  - intros (k & Hk). exists (missing mr). split; [|done].
    apply list_elem_of_fmap. exists (k, missing mr). split; [done|].
    by apply elem_of_map_to_list.
Qed.

Lemma linked_elem id (table : gmap string MissingConnection) mcId row :
  (mcId, row) ∈ linked id table <-> table !! mcId = Some row /\ id ∈ mc_runs row.
Proof.
  unfold linked. rewrite list_elem_of_filter, elem_of_map_to_list. simpl. tauto.
Qed.

Lemma notifications_elem l j :
  j ∈ notifications l <->
  exists mcId row, j = missingConnectionCreated mcId /\ (mcId, row) ∈ l
                   /\ size (mc_runs row) = 1%nat.
Proof.
  unfold notifications. rewrite list_elem_of_fmap. split.
  - intros ([mcId row] & -> & Hin). apply list_elem_of_filter in Hin as [Hs Hin].
    eauto.
  - intros (mcId & row & -> & Hin & Hs). exists (mcId, row). split; [done|].
    by apply list_elem_of_filter.
Qed.

Lemma notifications_NoDup id (table : gmap string MissingConnection) :
  NoDup (notifications (linked id table)).
Proof.
  unfold notifications.
  assert (NoDup (fst <$> filter (fun kv : string * MissingConnection =>
                                   size (mc_runs kv.2) = 1%nat) (linked id table))) as H.
  { apply (sublist_NoDup _ (fst <$> map_to_list table)).
    - apply NoDup_fst_map_to_list.
    - apply fmap_sublist. etrans; [apply sublist_filter|]. apply sublist_filter. }
  match goal with
  | |- NoDup (map _ ?l) =>
      replace (map (fun kv : string * MissingConnection =>
                      missingConnectionCreated (fst kv)) l)
        with (missingConnectionCreated <$> (fst <$> l))
        by (by rewrite <- list_fmap_compose)
  end.
  apply NoDup_fmap_2; [|exact H]. intros a b Hab. by inversion Hab.
Qed.

(** C5, counterexample to the claim as written: activating twice a run
    that is the only one waiting on a still unresolved credential enqueues
    the notification for that credential twice. *)
Lemma reactivation_notifies_again :
  let w1 := snd (call NoFault 100 "R1" missing_world) in
  let w2 := snd (call NoFault 200 "R1" w1) in
  (run_status <$> jobRun (store w1) !! "R1"%string) = Some WAITING_ON_CONNECTIONS
  /\ (mc_runs <$> missingConnection (store w1) !! "0"%string) = Some {[ "R1"%string ]}
  /\ (mc_resolved <$> missingConnection (store w2) !! "0"%string) = Some false
  /\ dom (missingConnection (store w2)) = {[ "0"%string ]}
  /\ workerJobs (store w1) = [missingConnectionCreated "0"]
  /\ workerJobs (store w2)
     = [missingConnectionCreated "0"; missingConnectionCreated "0"].
Proof. vm_compute. repeat split; reflexivity. Qed.

(** C5 (as amended): the tracker enqueues one provisioning notification
    for a MissingConnection exactly when, after the update, that
    MissingConnection is linked to the run being activated and to no other
    run; no notification is enqueued for a MissingConnection on which some
    other run was already waiting. *)
Theorem tracker_notifies_sole_association id m w w' :
  handleMissingConnections id m w = (Ok tt, w') ->
  exists new,
    workerJobs (store w') = workerJobs (store w) ++ new
    /\ NoDup new
    /\ (forall j, j ∈ new <->
          exists mcId row,
            j = missingConnectionCreated mcId
            /\ missingConnection (store w') !! mcId = Some row
            /\ id ∈ mc_runs row
            /\ size (mc_runs row) = 1%nat)
    /\ (forall mcId row other,
          missingConnection (store w) !! mcId = Some row ->
          other ∈ mc_runs row -> other <> id ->
          missingConnectionCreated mcId ∉ new).
Proof.
  intros H. destruct (handleMissingConnections_success _ _ _ _ H) as [r Hr].
  rewrite (handleMissingConnections_run id m w r Hr) in H.
  inversion H; subst w'; clear H. simpl.
  eexists. split; [reflexivity|]. split; [apply notifications_NoDup|].
  assert (forall j, j ∈ notifications
            (linked id (tracker_table id m (missingConnection (store w)))) <->
          exists mcId row, j = missingConnectionCreated mcId
            /\ tracker_table id m (missingConnection (store w)) !! mcId = Some row
            /\ id ∈ mc_runs row /\ size (mc_runs row) = 1%nat) as Hiff.
  { intros j. rewrite notifications_elem. split.
    - intros (mcId & row & -> & Hin & Hs). apply linked_elem in Hin as [Hl Hi]. eauto 10.
    - intros (mcId & row & -> & Hl & Hi & Hs). exists mcId, row.
      split; [done|]. split; [|done]. by apply linked_elem. }
  split; [exact Hiff|].
  intros mcId row other Hrow Hother Hne Hin.
  apply Hiff in Hin as (mcId' & row' & Heq & Hrow' & Hid & Hsize).
  inversion Heq; subst mcId'.
  destruct (tracker_fold_keeps id (missing_entries m) _ _ _ Hrow)
    as (row2 & H2 & _ & Hsub & _).
  unfold tracker_table in Hrow'. rewrite H2 in Hrow'. inversion Hrow'; subst row2.
  apply size_1_elem_of in Hsize as [x Hx]. apply Hsub in Hother.
  rewrite Hx in Hother, Hid. apply elem_of_singleton in Hother, Hid.
  congruence.
Qed.

(** C5, witness: the first activation of a run with a missing credential. *)
Lemma tracker_notifies_sole_association_witness :
  exists new,
    workerJobs (store (snd (handleMissingConnections "R1" missing_connections
                              missing_world)))
    = workerJobs (store missing_world) ++ new
    /\ NoDup new
    /\ (forall j, j ∈ new <->
          exists mcId row,
            j = missingConnectionCreated mcId
            /\ missingConnection
                 (store (snd (handleMissingConnections "R1" missing_connections
                                missing_world))) !! mcId = Some row
            /\ "R1"%string ∈ mc_runs row
            /\ size (mc_runs row) = 1%nat)
    /\ (forall mcId row other,
          missingConnection (store missing_world) !! mcId = Some row ->
          other ∈ mc_runs row -> other <> "R1"%string ->
          missingConnectionCreated mcId ∉ new).
Proof.
  apply (tracker_notifies_sole_association "R1" missing_connections missing_world).
  vm_compute. reflexivity.
Defined.

(** ** The Shopify integration *)

(** C10: constructing the Shopify integration with an [apiKey] key that
    is present but undefined throws; on an instance, [authSource] is LOCAL
    exactly when a truthy [apiKey] was supplied and HOSTED otherwise, so an
    instance whose options contain an [apiKey] key has [authSource] LOCAL. *)
Theorem shopify_authSource_classification
    (options : Shopify.ShopifyIntegrationOptions) :
  (Shopify.apiKey options = Shopify.KeyUndefined ->
   exists msg, Shopify.new options = inl msg)
  /\ forall this, Shopify.new options = inr this ->
       (Shopify.authSource this = Shopify.LOCAL <->
        exists s, Shopify.apiKey options = Shopify.KeyString s /\ s <> ""%string)
       /\ (Shopify.authSource this = Shopify.HOSTED <->
           ~ exists s, Shopify.apiKey options = Shopify.KeyString s /\ s <> ""%string)
       /\ (Shopify.apiKey (Shopify._options this) <> Shopify.KeyAbsent ->
           Shopify.authSource this = Shopify.LOCAL).
Proof.
  split.
  - intros H. unfold Shopify.new, Shopify.has_apiKey_key, Shopify.apiKey_truthy.
    rewrite H. simpl. eauto.
  - intros this. unfold Shopify.new, Shopify.has_apiKey_key, Shopify.apiKey_truthy,
      Shopify.authSource, Shopify.apiKey_truthy.
    destruct (Shopify.apiKey options) as [| |[|c s]] eqn:Hk; simpl;
      intros H; inversion H; subst this; simpl; rewrite Hk; simpl.
    + split; [|split]; [split; [discriminate|intros (s & ? & _); discriminate]
                      | split; [intros _ (s & ? & _); discriminate|done] | congruence].
    + split; [|split]; [split; [eauto|done]
                      | split; [discriminate|intros Hn; exfalso; apply Hn; eauto] | done].
Qed.

(** C10, witness: an undefined key and a real key. *)
Lemma shopify_authSource_classification_witness :
  (exists msg, Shopify.new (options_with Shopify.KeyUndefined) = inl msg)
  /\ Shopify.authSource
       {| Shopify._options := options_with (Shopify.KeyString "key");
          Shopify._shopDomain := "example.myshopify.com" |} = Shopify.LOCAL.
Proof.
  split.
  - apply (proj1 (shopify_authSource_classification
                    (options_with Shopify.KeyUndefined))). reflexivity.
  - apply (proj2 (shopify_authSource_classification
                    (options_with (Shopify.KeyString "key")))).
    + vm_compute. reflexivity.
    + discriminate.
Defined.

(** ** Scenario and test vectors *)

(** A run with a hosted requirement and no connection is parked with one
    notification; once the connection exists, the next activation queues
    it with sequence number 1 and dispatches it once. *)
Example scenario_waiting_then_queued :
  let w1 := snd (call NoFault 100 "R1" missing_world) in
  let w2 := snd (call NoFault 200 "R1" (connect developer_connection w1)) in
  (run_status <$> jobRun (store w1) !! "R1"%string)
  = Some WAITING_ON_CONNECTIONS
  /\ workerJobs (store w1) = [missingConnectionCreated "0"]
  /\ jobRun (store w2) !! "R1"%string
     = Some {| run_id := "R1"; run_jobId := "J"; run_versionId := "V";
               run_status := QUEUED; run_externalAccountId := None;
               run_number := Some 1; run_queuedAt := Some 200 |}
  /\ jobCounter (store w2) !! "J"%string = Some 1
  /\ workerJobs (store w2) = [missingConnectionCreated "0"; resumeRun "R1"].
Proof. vm_compute. repeat split; reflexivity. Qed.

Example sha256_abc :
  Sha256.sha256_hex "abc" =
  "ba7816bf8f01cfea414140de5dae2223b00361a396177a9cb410ff61f20015ad"%string.
Proof. vm_compute. reflexivity. Qed.

Example sha256_empty :
  Sha256.sha256_hex "" =
  "e3b0c44298fc1c149afbf4c8996fb92427ae41e4649b934ca495991b7852b855"%string.
Proof. vm_compute. reflexivity. Qed.

Example sha256_two_blocks :
  Sha256.sha256_hex
    "abcdbcdecdefdefgefghfghighijhijkijkljklmklmnlmnomnopnopq" =
  "248d6a61d20638b8e5c026930c3e6039a33ce45964ff2167f6ecedd419db06c1"%string.
Proof. vm_compute. reflexivity. Qed.

Example jobIdToLockId_abc : jobIdToLockId "abc" = JsInt 3128432319.
Proof. vm_compute. reflexivity. Qed.

Example parseInt16_prefix : parseInt16 "  -0x1Fz" = JsInt (-31).
Proof. vm_compute. reflexivity. Qed.

(** ** Further properties of the activation pipeline *)

Lemma startRun_cases fault now id run m w :
  let res := startRun fault now id run m w in
  let jobId := run_jobId (found_run run) in
  pending (snd res) = pending w
  /\ ((store (snd res) = store w /\ exists e, fst res = Throw e)
      \/ exists r,
           jobRun (store w) !! id = Some r
           /\ ((fault = NoFault /\ fst res = Ok tt
                /\ store (snd res)
                   = store_after_commit (store w) id r jobId
                       (next_number (store w) jobId) now (bindings id m))
               \/ ((fault = FailEnqueue \/ fault = FailCommit)
                   /\ (exists e, fst res = Throw e)
                   /\ store (snd res)
                      = store_after_update (store w) id r
                          (next_number (store w) jobId) now (bindings id m)))).
Proof.
  unfold startRun.
  destruct (LockKeyFacts.jobIdToLockId_word (run_jobId (found_run run)))
    as (k & Hk & _).
  rewrite Hk. cbv zeta. unfold next_number, bindings.
  destruct (jobRun (store w) !! id) as [r|] eqn:Hr.
  - destruct fault; unfold_m; simpl; rewrite ?Hr; simpl;
      (split; [reflexivity|]);
      first [ left; split; [by destruct w as [[]]|eauto]
            | right; exists r; split; [reflexivity|]; eauto 10 ].
  - destruct fault; unfold_m; simpl; rewrite ?Hr; simpl;
      (split; [reflexivity|]); left; (split; [by destruct w as [[]]|eauto]).
Qed.

Lemma createRunConnections_resolved s r w :
  store w = s ->
  createRunConnections (found_of s r) w
  = (Ok (resolved s r),
     with_trace w
       (flat_map (fun ji => spec_lookups r (ji_integration ji))
                 (found_integrations (found_of s r)))).
Proof.
  intros <-. unfold createRunConnections. rewrite foldM_resolve. reflexivity.
Qed.

(** Every way [call] can end, for every failure. *)
Lemma call_cases fault now id w :
  let res := call fault now id w in
  pending (snd res) = pending w
  /\ ((store (snd res) = store w
       /\ (fst res = Ok tt \/ exists e, fst res = Throw e))
      \/ exists r,
           jobRun (store w) !! id = Some r /\ startable r
           /\ let m := resolved (store w) r in
              ((hasMissingConnections m = true /\ fst res = Ok tt
                /\ store (snd res) = store_after_tracker (store w) id r m)
               \/ (hasMissingConnections m = false /\ fault = NoFault
                   /\ fst res = Ok tt
                   /\ store (snd res)
                      = store_after_commit (store w) id r (run_jobId r)
                          (next_number (store w) (run_jobId r)) now
                          (bindings id m))
               \/ (hasMissingConnections m = false
                   /\ (fault = FailEnqueue \/ fault = FailCommit)
                   /\ (exists e, fst res = Throw e)
                   /\ store (snd res)
                      = store_after_update (store w) id r
                          (next_number (store w) (run_jobId r)) now
                          (bindings id m)))).
Proof.
  cbv zeta. destruct (jobRun (store w) !! id) as [r|] eqn:Hr.
  - destruct (decide (startable r)) as [Hs|Hs].
    + destruct (call_startable fault now id w r Hr Hs)
        as (m & w1 & Hm & Hst & Hp & Hc).
      rewrite (createRunConnections_resolved (store w) r) in Hm by reflexivity.
      inversion Hm; subst m; clear Hm.
      rewrite Hc. destruct (hasMissingConnections (resolved (store w) r)) eqn:Hh.
      * assert (jobRun (store w1) !! id = Some r) as Hr1 by (by rewrite Hst).
        rewrite (handleMissingConnections_run id _ w1 r Hr1). simpl.
        split; [exact Hp|]. right. exists r. split; [done|]. split; [done|].
        left. split; [done|]. split; [done|].
        unfold store_after_tracker. by rewrite Hst.
      * pose proof (startRun_cases fault now id (found_of (store w) r)
                      (resolved (store w) r) w1) as Hcases.
        cbv zeta in Hcases. destruct Hcases as [Hpend Hcases].
        split; [by rewrite Hpend|]. rewrite Hst in Hcases.
        destruct Hcases as [[Hsame He]|(r0 & Hr0 & Hcases)].
        -- left. split; [done|]. by right.
        -- rewrite Hr in Hr0. inversion Hr0; subst r0. right. exists r.
           split; [done|]. split; [done|]. right.
           destruct Hcases as [(Hf & Hok & Hstore)|(Hf & He & Hstore)].
           ++ left. done.
           ++ right. done.
    + rewrite (call_not_startable fault now id w r Hr Hs). simpl.
      split; [done|]. left. split; [done|]. by left.
  - rewrite (call_not_found fault now id w Hr). simpl.
    split; [done|]. left. split; [done|]. by left.
Qed.

(** X1: a sequence of activations, whatever their failures, leaves the row
    of every run that is not among the activated ids exactly as it was. *)
Theorem activation_leaves_other_runs calls w id :
  Forall (fun c : Fault * Z * string => snd c <> id) calls ->
  jobRun (store (activate_all calls w)) !! id = jobRun (store w) !! id.
Proof.
  revert w. induction calls as [|[[fault now] id'] calls IH]; intros w H;
    simpl; [reflexivity|].
  inversion H as [|? ? Hne Hrest]; subst. simpl in Hne.
  rewrite IH by exact Hrest. apply call_jobRun_other. congruence.
Qed.

(** X1, witness. *)
Lemma activation_leaves_other_runs_witness :
  jobRun (store (activate_all [(NoFault, 100, "R1"%string)] (two_runs local)))
    !! "R2"%string
  = jobRun (store (two_runs local)) !! "R2"%string.
Proof.
  apply (activation_leaves_other_runs [(NoFault, 100, "R1"%string)]
           (two_runs local) "R2").
  apply Forall_cons. split; [discriminate|apply Forall_nil_2].
Defined.

Lemma call_reference_tables fault now id w :
  integrationConnection (store (snd (call fault now id w)))
  = integrationConnection (store w)
  /\ jobIntegration (store (snd (call fault now id w)))
     = jobIntegration (store w).
Proof.
  destruct (call_cases fault now id w) as [_ [[Hs _]|(r & _ & _ & H)]].
  - by rewrite Hs.
  - cbv zeta in H.
    destruct H as [(_ & _ & ->)|[(_ & _ & _ & ->)|(_ & _ & _ & ->)]]; done.
Qed.

(** X2: no sequence of activations writes the integration connections or
    the requirements of a job version. *)
Theorem activation_keeps_reference_tables calls w :
  integrationConnection (store (activate_all calls w))
  = integrationConnection (store w)
  /\ jobIntegration (store (activate_all calls w)) = jobIntegration (store w).
Proof.
  revert w. induction calls as [|[[fault now] id] calls IH]; intros w;
    simpl; [done|].
  destruct (IH (snd (call fault now id w))) as [-> ->].
  apply call_reference_tables.
Qed.

Lemma call_run_identity fault now id' w id r :
  jobRun (store w) !! id = Some r ->
  exists r', jobRun (store (snd (call fault now id' w))) !! id = Some r'
             /\ same_identity r r'.
Proof.
  intros Hr. destruct (decide (id = id')) as [<-|Hne].
  - destruct (call_cases fault now id w) as [_ [[Hs _]|(r0 & Hr0 & _ & H)]].
    + rewrite Hs. exists r. by rewrite Hr.
    + rewrite Hr in Hr0. inversion Hr0; subst r0. cbv zeta in H.
      destruct H as [(_ & _ & ->)|[(_ & _ & _ & ->)|(_ & _ & _ & ->)]]; simpl;
        rewrite lookup_insert_eq; eexists; (split; [reflexivity|]); done.
  - rewrite call_jobRun_other by done. exists r. by rewrite Hr.
Qed.

(** X3: no sequence of activations deletes a run or changes its id, job,
    version or external account. *)
Theorem activation_keeps_run_identity calls w id r :
  jobRun (store w) !! id = Some r ->
  exists r', jobRun (store (activate_all calls w)) !! id = Some r'
             /\ run_id r' = run_id r /\ run_jobId r' = run_jobId r
             /\ run_versionId r' = run_versionId r
             /\ run_externalAccountId r' = run_externalAccountId r.
Proof.
  revert w r. induction calls as [|[[fault now] id'] calls IH]; intros w r Hr;
    simpl.
  - exists r. by rewrite Hr.
  - destruct (call_run_identity fault now id' w id r Hr) as (r1 & Hr1 & H1).
    destruct (IH _ _ Hr1) as (r2 & Hr2 & H2). exists r2. split; [done|].
    unfold same_identity in H1. destruct H1 as (? & ? & ? & ?).
    destruct H2 as (? & ? & ? & ?). repeat split; congruence.
Qed.

(** X3, witness. *)
Lemma activation_keeps_run_identity_witness :
  exists r',
    jobRun (store (activate_all [(NoFault, 100, "R1"%string)] (two_runs local)))
      !! "R1"%string = Some r'
    /\ run_id r' = "R1"%string /\ run_jobId r' = "J"%string
    /\ run_versionId r' = "V"%string
    /\ run_externalAccountId r' = None.
Proof.
  apply (activation_keeps_run_identity [(NoFault, 100, "R1"%string)]
           (two_runs local) "R1" (run_with PENDING None)).
  vm_compute. reflexivity.
Defined.

Lemma call_counter_step fault now id w :
  jobCounter (store (snd (call fault now id w))) = jobCounter (store w)
  \/ exists r n r',
       jobRun (store w) !! id = Some r
       /\ fst (call fault now id w) = Ok tt
       /\ match jobCounter (store w) !! run_jobId r with
          | None => n = 1
          | Some c => n = c + 1
          end
       /\ jobCounter (store (snd (call fault now id w)))
          = <[run_jobId r := n]> (jobCounter (store w))
       /\ jobRun (store (snd (call fault now id w))) !! id = Some r'
       /\ run_status r' = QUEUED /\ run_number r' = Some n.
Proof.
  destruct (call_cases fault now id w) as [_ [[Hs _]|(r & Hr & _ & H)]].
  - left. by rewrite Hs.
  - cbv zeta in H.
    destruct H as [(_ & _ & ->)|[(_ & _ & Hok & ->)|(_ & _ & _ & ->)]].
    + by left.
    + right. exists r, (next_number (store w) (run_jobId r)). eexists.
      split; [done|]. split; [done|]. split.
      * unfold next_number. by destruct (jobCounter (store w) !! run_jobId r).
      * simpl. rewrite lookup_insert_eq. done.
    + by left.
Qed.

Lemma call_counter_monotone fault now id w j c :
  jobCounter (store w) !! j = Some c ->
  exists c', jobCounter (store (snd (call fault now id w))) !! j = Some c'
             /\ c <= c'.
Proof.
  intros Hc.
  destruct (call_counter_step fault now id w)
    as [->|(r & n & r' & _ & _ & Hn & -> & _)].
  - exists c. split; [done|lia].
  - destruct (decide (run_jobId r = j)) as [<-|Hne].
    + rewrite lookup_insert_eq. rewrite Hc in Hn. exists n. split; [done|lia].
    + rewrite lookup_insert_ne by done. exists c. split; [done|lia].
Qed.

(** X4: one activation either leaves every job counter as it was, or it
    succeeds, sets the counter of the run's own job to 1 (no counter
    before) or to the old value plus 1, and leaves the run QUEUED with that
    number. *)
Theorem activation_consumes_at_most_one_number fault now id w :
  jobCounter (store (snd (call fault now id w))) = jobCounter (store w)
  \/ exists r n r',
       jobRun (store w) !! id = Some r
       /\ fst (call fault now id w) = Ok tt
       /\ match jobCounter (store w) !! run_jobId r with
          | None => n = 1
          | Some c => n = c + 1
          end
       /\ jobCounter (store (snd (call fault now id w)))
          = <[run_jobId r := n]> (jobCounter (store w))
       /\ jobRun (store (snd (call fault now id w))) !! id = Some r'
       /\ run_status r' = QUEUED /\ run_number r' = Some n.
Proof. apply call_counter_step. Qed.

(** X5: over any sequence of activations a job counter never disappears and
    never decreases. *)
Theorem counters_never_decrease calls w j c :
  jobCounter (store w) !! j = Some c ->
  exists c', jobCounter (store (activate_all calls w)) !! j = Some c'
             /\ c <= c'.
Proof.
  revert w c. induction calls as [|[[fault now] id] calls IH]; intros w c Hc;
    simpl.
  - exists c. split; [done|lia].
  - destruct (call_counter_monotone fault now id w j c Hc) as (c1 & Hc1 & Hle1).
    destruct (IH _ _ Hc1) as (c2 & Hc2 & Hle2). exists c2. split; [done|lia].
Qed.

(** X5, witness. *)
Lemma counters_never_decrease_witness :
  exists c',
    jobCounter
      (store (activate_all [(NoFault, 200, "R2"%string)]
                (snd (call NoFault 100 "R1" (two_runs local))))) !! "J"%string
    = Some c'
    /\ 1 <= c'.
Proof.
  apply (counters_never_decrease [(NoFault, 200, "R2"%string)]
           (snd (call NoFault 100 "R1" (two_runs local))) "J" 1).
  vm_compute. reflexivity.
Defined.

Lemma startRun_no_fault_store now id run m w r :
  jobRun (store w) !! id = Some r ->
  store (snd (startRun NoFault now id run m w))
  = store_after_commit (store w) id r (run_jobId (found_run run))
      (next_number (store w) (run_jobId (found_run run))) now (bindings id m).
Proof.
  intros Hr. destruct (startRun_cases NoFault now id run m w) as [_ H].
  destruct H as [[_ [e He]]|(r0 & Hr0 & H)].
  - destruct (startRun_no_fault now id run m w r Hr) as [w' Hw'].
    rewrite Hw' in He. discriminate.
  - rewrite Hr in Hr0. inversion Hr0; subst r0.
    destruct H as [(_ & _ & H)|([H|H] & _)]; [exact H|discriminate..].
Qed.

Lemma queue_all_other now ts : forall w id,
  id ∉ map transition_id ts ->
  jobRun (store (queue_all now ts w)) !! id = jobRun (store w) !! id.
Proof.
  induction ts as [|t ts IH]; intros w id Hid; simpl; [reflexivity|].
  simpl in Hid. apply not_elem_of_cons in Hid as [Hne Hid].
  rewrite IH by exact Hid. by apply startRun_jobRun_other.
Qed.

Lemma queue_all_numbers now J ts : forall w,
  NoDup (map transition_id ts) ->
  Forall (fun t => transition_jobId t = J
                   /\ is_Some (jobRun (store w) !! transition_id t)) ts ->
  (ts <> [] ->
   jobCounter (store (queue_all now ts w)) !! J
   = Some (default 0 (jobCounter (store w) !! J) + Z.of_nat (length ts)))
  /\ forall (i : nat) t,
       ts !! i = Some t ->
       (run_number <$> jobRun (store (queue_all now ts w)) !! transition_id t)
       = Some (Some (default 0 (jobCounter (store w) !! J) + Z.of_nat i + 1)).
Proof.
  induction ts as [|t ts IH]; intros w Hnd Hall.
  - split; [done|]. intros i t Hi. by rewrite lookup_nil in Hi.
  - simpl in Hnd. apply NoDup_cons in Hnd as [Hfresh Hnd].
    apply Forall_cons in Hall as [[HJ [r Hr]] Hrest].
    set (w1 := snd (startRun NoFault now (transition_id t) (snd (fst t)) (snd t) w)).
    assert (store w1 = store_after_commit (store w) (transition_id t) r J
                         (next_number (store w) J) now
                         (bindings (transition_id t) (snd t))) as Hw1.
    { unfold w1. rewrite (startRun_no_fault_store _ _ _ _ _ r Hr).
      unfold transition_jobId in HJ. by rewrite HJ. }
    assert (default 0 (jobCounter (store w1) !! J)
            = default 0 (jobCounter (store w) !! J) + 1) as Hbase.
    { rewrite Hw1. simpl. rewrite lookup_insert_eq. simpl. unfold next_number.
      destruct (jobCounter (store w) !! J); simpl; lia. }
    destruct (IH w1 Hnd) as [IHc IHn].
    { eapply Forall_impl; [exact Hrest|]. intros t' [HJ' [r' Hr']].
      split; [done|]. rewrite Hw1. simpl.
      destruct (decide (transition_id t = transition_id t')) as [->|Hne].
      - rewrite lookup_insert_eq. eauto.
      - rewrite lookup_insert_ne by done. eauto. }
    split.
    + intros _. simpl queue_all. fold w1. destruct ts as [|t' ts'].
      * simpl. rewrite Hw1. simpl. rewrite lookup_insert_eq. f_equal.
        unfold next_number. destruct (jobCounter (store w) !! J); simpl; lia.
      * rewrite IHc by done. rewrite Hbase. f_equal.
        change (length (t :: t' :: ts')) with (S (length (t' :: ts'))). lia.
    + intros i t0 Hi. simpl queue_all. fold w1. destruct i as [|i].
      * simpl in Hi. inversion Hi; subst t0.
        rewrite queue_all_other by exact Hfresh. rewrite Hw1. simpl.
        rewrite lookup_insert_eq. simpl. do 2 f_equal. unfold next_number.
        destruct (jobCounter (store w) !! J); simpl; lia.
      * simpl in Hi. rewrite (IHn i t0 Hi). rewrite Hbase. do 2 f_equal. lia.
Qed.

(** X6: queue transitions of distinct existing runs of one job, run one
    after the other without failure, give the i-th run the number
    c + i + 1 and leave the counter at c + n, where c is the counter before
    (0 when the job had none) and n the number of transitions. *)
Theorem sequential_transitions_number_consecutively now J ts w :
  NoDup (map transition_id ts) ->
  Forall (fun t => transition_jobId t = J
                   /\ is_Some (jobRun (store w) !! transition_id t)) ts ->
  (ts <> [] ->
   jobCounter (store (queue_all now ts w)) !! J
   = Some (default 0 (jobCounter (store w) !! J) + Z.of_nat (length ts)))
  /\ forall (i : nat) t,
       ts !! i = Some t ->
       (run_number <$> jobRun (store (queue_all now ts w)) !! transition_id t)
       = Some (Some (default 0 (jobCounter (store w) !! J) + Z.of_nat i + 1)).
Proof. apply queue_all_numbers. Qed.

(** X6, witness. *)
Lemma sequential_transitions_number_consecutively_witness :
  let ts := [("R1"%string, local_found, local_connections);
             ("R2"%string, second_found, local_connections)] in
  (ts <> [] ->
   jobCounter (store (queue_all 100 ts (two_runs local))) !! "J"%string
   = Some (default 0 (jobCounter (store (two_runs local)) !! "J"%string)
           + Z.of_nat (length ts)))
  /\ forall (i : nat) t,
       ts !! i = Some t ->
       (run_number
          <$> jobRun (store (queue_all 100 ts (two_runs local)))
                !! transition_id t)
       = Some (Some (default 0 (jobCounter (store (two_runs local))
                                  !! "J"%string)
                     + Z.of_nat i + 1)).
Proof.
  apply (sequential_transitions_number_consecutively 100 "J").
  - vm_compute. apply NoDup_cons. split.
    + intros H. apply elem_of_cons in H as [H|H]; [discriminate|].
      by apply elem_of_nil in H.
    + apply NoDup_cons. split; [apply not_elem_of_nil|apply NoDup_nil_2].
  - apply Forall_cons. split.
    + split; [reflexivity|]. vm_compute. eauto.
    + apply Forall_cons. split; [|apply Forall_nil_2].
      split; [reflexivity|]. vm_compute. eauto.
Defined.

Lemma bindings_elem id (m : gmap string RunConnectionResult) b :
  b ∈ bindings id m <->
  exists k c, m !! k = Some c /\ runConnectionCreate id (k, c) = Some b.
Proof.
  unfold bindings. rewrite list_elem_of_omap. split.
  - intros ([k c] & Hin & Hb). apply elem_of_map_to_list in Hin. eauto.
  - intros (k & c & Hk & Hb). exists (k, c). split; [|done].
    by apply elem_of_map_to_list.
Qed.

Lemma created_keys_sublist id (l : list (string * RunConnectionResult)) :
  map rc_key (omap (runConnectionCreate id) l) `sublist_of` map fst l.
Proof.
  induction l as [|[k c] l IH]; simpl; [constructor|].
  unfold runConnectionCreate at 1. simpl.
  destruct c; simpl; try (by apply sublist_skip); by apply sublist_cons.
Qed.

Lemma bindings_NoDup id (m : gmap string RunConnectionResult) :
  NoDup (map rc_key (bindings id m)).
Proof.
  apply (sublist_NoDup _ (map fst (map_to_list m))).
  - apply NoDup_fst_map_to_list.
  - apply created_keys_sublist.
Qed.

(** X7: a successful queue transition appends run-connection records for
    this run only, with pairwise distinct keys: one for every resolved
    entry (with the connection id and HOSTED for a hosted one, no
    connection id and LOCAL or RESOLVER for the others) and none for a
    missing or absent entry. *)
Theorem queue_transition_bindings fault now id run m w w' :
  startRun fault now id run m w = (Ok tt, w') ->
  exists bs,
    runConnection (store w') = runConnection (store w) ++ bs
    /\ NoDup (map rc_key bs)
    /\ (forall b, b ∈ bs ->
          rc_runId b = id
          /\ exists c, m !! rc_key b = Some c /\ is_missing c = false)
    /\ (forall k c i, m !! k = Some (resolvedHosted c i) ->
          {| rc_runId := id; rc_key := k;
             rc_connectionId := Some (connection_id c);
             rc_integrationId := integration_id i;
             rc_authSource := HOSTED |} ∈ bs)
    /\ (forall k i, m !! k = Some (resolvedLocal i) ->
          {| rc_runId := id; rc_key := k; rc_connectionId := None;
             rc_integrationId := integration_id i;
             rc_authSource := LOCAL |} ∈ bs)
    /\ (forall k i, m !! k = Some (resolvedResolver i) ->
          {| rc_runId := id; rc_key := k; rc_connectionId := None;
             rc_integrationId := integration_id i;
             rc_authSource := RESOLVER |} ∈ bs).
Proof.
  intros H. apply startRun_success in H as (k0 & r & _ & _ & _ & ->).
  exists (bindings id m). simpl. split; [reflexivity|].
  split; [apply bindings_NoDup|]. split; [|split; [|split]].
  - intros b Hb. apply bindings_elem in Hb as (k & c & Hk & Hb).
    unfold runConnectionCreate in Hb. simpl in Hb.
    destruct c; inversion Hb; subst b; simpl; eauto.
  - intros k c i Hk. apply bindings_elem. eauto.
  - intros k i Hk. apply bindings_elem. eauto.
  - intros k i Hk. apply bindings_elem. eauto.
Qed.

(** X7, witness. *)
Lemma queue_transition_bindings_witness :
  exists bs,
    runConnection
      (store (snd (startRun NoFault 100 "R1" local_found local_connections
                     local_world)))
    = runConnection (store local_world) ++ bs
    /\ NoDup (map rc_key bs).
Proof.
  destruct (queue_transition_bindings NoFault 100 "R1" local_found
              local_connections local_world
              (snd (startRun NoFault 100 "R1" local_found local_connections
                      local_world)))
    as (bs & H1 & H2 & _).
  - vm_compute. reflexivity.
  - exists bs. split; [exact H1|exact H2].
Defined.





(** X9: when the lock, the counter upsert or the run update of the queue
    transition fails, the store is left as it was (unless the run went to
    the tracker, which that failure does not concern). *)
Theorem early_failure_writes_nothing fault now id w :
  fault = FailLock \/ fault = FailUpsert \/ fault = FailRunUpdate ->
  pending (snd (call fault now id w)) = pending w
  /\ (store (snd (call fault now id w)) = store w
      \/ exists r',
           fst (call fault now id w) = Ok tt
           /\ jobRun (store (snd (call fault now id w))) !! id = Some r'
           /\ run_status r' = WAITING_ON_CONNECTIONS).
Proof.
  intros Hf.
  destruct (call_cases fault now id w) as [Hp [[Hs _]|(r & Hr & _ & H)]].
  - split; [done|]. by left.
  - split; [done|]. cbv zeta in H.
    destruct H as [(_ & Hok & ->)|[(_ & -> & _)|(_ & [->| ->] & _)]].
    + right. simpl. rewrite lookup_insert_eq. eauto.
    + destruct Hf as [?|[?|?]]; discriminate.
    + destruct Hf as [?|[?|?]]; discriminate.
    + destruct Hf as [?|[?|?]]; discriminate.
Qed.

(** X9, witness. *)
Lemma early_failure_writes_nothing_witness :
  pending (snd (call FailLock 100 "R1" local_world)) = pending local_world
  /\ (store (snd (call FailLock 100 "R1" local_world)) = store local_world
      \/ exists r',
           fst (call FailLock 100 "R1" local_world) = Ok tt
           /\ jobRun (store (snd (call FailLock 100 "R1" local_world)))
                !! "R1"%string = Some r'
           /\ run_status r' = WAITING_ON_CONNECTIONS).
Proof.
  apply (early_failure_writes_nothing FailLock 100 "R1" local_world).
  left. reflexivity.
Defined.

Lemma startRun_late_store fault now id run m w r :
  fault = FailEnqueue \/ fault = FailCommit ->
  jobRun (store w) !! id = Some r ->
  (exists e, fst (startRun fault now id run m w) = Throw e)
  /\ store (snd (startRun fault now id run m w))
     = store_after_update (store w) id r
         (next_number (store w) (run_jobId (found_run run))) now
         (bindings id m).
Proof.
  intros Hf Hr. unfold startRun.
  destruct (LockKeyFacts.jobIdToLockId_word (run_jobId (found_run run)))
    as (k & Hk & _).
  rewrite Hk. unfold next_number, bindings.
  destruct Hf as [->| ->]; unfold_m; simpl; rewrite Hr; simpl; eauto.
Qed.

(** X10: when the transaction of a queue transition fails after the run
    update, and a second run of the same job is then queued, both runs are
    QUEUED with the same sequence number, and only the second is
    dispatched. *)
Theorem late_failure_shares_sequence_number fault now1 now2 id1 id2
    run1 run2 m1 m2 w r1 r2 :
  fault = FailEnqueue \/ fault = FailCommit ->
  id1 <> id2 ->
  jobRun (store w) !! id1 = Some r1 ->
  jobRun (store w) !! id2 = Some r2 ->
  run_jobId (found_run run1) = run_jobId (found_run run2) ->
  let w1 := snd (startRun fault now1 id1 run1 m1 w) in
  let w2 := snd (startRun NoFault now2 id2 run2 m2 w1) in
  exists n r1' r2',
    (exists e, fst (startRun fault now1 id1 run1 m1 w) = Throw e)
    /\ fst (startRun NoFault now2 id2 run2 m2 w1) = Ok tt
    /\ jobRun (store w2) !! id1 = Some r1'
    /\ jobRun (store w2) !! id2 = Some r2'
    /\ run_status r1' = QUEUED /\ run_status r2' = QUEUED
    /\ run_number r1' = Some n /\ run_number r2' = Some n
    /\ workerJobs (store w2) = workerJobs (store w) ++ [resumeRun (run_id r2)].
Proof.
  intros Hf Hne Hr1 Hr2 HJ. cbv zeta.
  destruct (startRun_late_store fault now1 id1 run1 m1 w r1 Hf Hr1) as [He Hs1].
  set (w1 := snd (startRun fault now1 id1 run1 m1 w)) in *.
  assert (jobRun (store w1) !! id2 = Some r2) as Hr2'.
  { rewrite Hs1. simpl. by rewrite lookup_insert_ne. }
  destruct (startRun_no_fault now2 id2 run2 m2 w1 r2 Hr2') as [w2 Hw2].
  pose proof (startRun_no_fault_store now2 id2 run2 m2 w1 r2 Hr2') as Hs2.
  rewrite Hw2 in *. simpl in Hs2.
  assert (next_number (store w1) (run_jobId (found_run run2))
          = next_number (store w) (run_jobId (found_run run1))) as Hn.
  { unfold next_number. rewrite Hs1. simpl. by rewrite HJ. }
  rewrite Hn, Hs1 in Hs2.
  exists (next_number (store w) (run_jobId (found_run run1))).
  eexists _, _. split; [exact He|]. split; [reflexivity|].
  simpl. rewrite Hs2. simpl.
  rewrite lookup_insert_eq, lookup_insert_ne, lookup_insert_eq by done.
  done.
Qed.

(** X10, witness. *)
Lemma late_failure_shares_sequence_number_witness :
  let w1 := snd (startRun FailEnqueue 100 "R1" local_found local_connections
                   (two_runs local)) in
  let w2 := snd (startRun NoFault 200 "R2" second_found local_connections w1) in
  exists n r1' r2',
    (exists e, fst (startRun FailEnqueue 100 "R1" local_found
                      local_connections (two_runs local)) = Throw e)
    /\ fst (startRun NoFault 200 "R2" second_found local_connections w1) = Ok tt
    /\ jobRun (store w2) !! "R1"%string = Some r1'
    /\ jobRun (store w2) !! "R2"%string = Some r2'
    /\ run_status r1' = QUEUED /\ run_status r2' = QUEUED
    /\ run_number r1' = Some n /\ run_number r2' = Some n
    /\ workerJobs (store w2)
       = workerJobs (store (two_runs local)) ++ [resumeRun (run_id second_run)].
Proof.
  apply (late_failure_shares_sequence_number FailEnqueue 100 200 "R1" "R2"
           local_found second_found local_connections local_connections
           (two_runs local) (run_with PENDING None) second_run).
  - left. reflexivity.
  - discriminate.
  - vm_compute. reflexivity.
  - vm_compute. reflexivity.
  - reflexivity.
Defined.

(** ** Further properties of the missing-connection tracker *)

Lemma mc_matches_key k row : mc_matches k row = true <-> mc_key row = k.
Proof.
  unfold mc_matches, mc_key. rewrite !andb_true_iff, !bool_decide_eq_true.
  destruct k; simpl. split.
  - intros [[-> ->] ->]. reflexivity.
  - intros H. inversion H. done.
Qed.

Lemma same_credential_key row row' :
  same_credential row row' -> mc_key row' = mc_key row.
Proof. intros (H1 & H2 & H3 & _). unfold mc_key. by rewrite H1, H2, H3. Qed.

Lemma connectOrCreate_row id table e mcId row :
  table !! mcId = Some row ->
  exists row',
    connectOrCreate id table e !! mcId = Some row'
    /\ same_credential row row'
    /\ mc_runs row ⊆ mc_runs row'
    /\ mc_runs row' ⊆ {[id]} ∪ mc_runs row.
Proof.
  intros Hrow. unfold connectOrCreate.
  destruct (find _ _) as [[mcId0 row0]|] eqn:Hf.
  - apply find_row_some in Hf as [H0 _].
    destruct (decide (mcId0 = mcId)) as [->|Hne].
    + rewrite lookup_insert_eq. rewrite Hrow in H0. inversion H0; subst row0.
      eexists. split; [reflexivity|]. split; [done|]. simpl.
      split; [apply union_subseteq_r|done].
    + rewrite lookup_insert_ne by done. exists row. split; [done|].
      split; [done|]. split; [done|apply union_subseteq_r].
  - rewrite lookup_insert_ne.
    + exists row. split; [done|]. split; [done|].
      split; [done|apply union_subseteq_r].
    + intros Heq. pose proof (fresh_lookup table) as Hfr.
      rewrite Heq in Hfr. congruence.
Qed.

Lemma tracker_fold_row id es : forall table mcId row,
  table !! mcId = Some row ->
  exists row',
    fold_left (connectOrCreate id) es table !! mcId = Some row'
    /\ same_credential row row'
    /\ mc_runs row ⊆ mc_runs row'
    /\ mc_runs row' ⊆ {[id]} ∪ mc_runs row.
Proof.
  induction es as [|e es IH]; intros table mcId row Hrow; simpl.
  - exists row. split; [done|]. split; [done|].
    split; [done|apply union_subseteq_r].
  - destruct (connectOrCreate_row id table e mcId row Hrow)
      as (row1 & H1 & Hk1 & Hs1 & Hs1').
    destruct (IH _ _ _ H1) as (row2 & H2 & Hk2 & Hs2 & Hs2').
    exists row2. split; [done|]. split.
    + destruct Hk1 as (?&?&?&?&?), Hk2 as (?&?&?&?&?).
      repeat split; congruence.
    + split; [by etrans|]. etrans; [exact Hs2'|].
      apply union_least; [apply union_subseteq_l|exact Hs1'].
Qed.

Lemma tracker_fold_new id es : forall table mcId row',
  fold_left (connectOrCreate id) es table !! mcId = Some row' ->
  table !! mcId = None ->
  Forall (fun e => mcc_resolved (snd e) = false) es ->
  mc_runs row' = {[id]} /\ mc_resolved row' = false
  /\ exists e, e ∈ es /\ same_credential (mc_create id (snd e)) row'.
Proof.
  induction es as [|e es IH]; intros table mcId row' H Hnone Hall.
  - simpl in H. congruence.
  - simpl in H. apply Forall_cons in Hall as [He Hall].
    destruct (connectOrCreate id table e !! mcId) as [row1|] eqn:H1.
    + destruct (tracker_fold_row id es _ _ _ H1) as (row2 & H2 & Hk & Hs & Hs').
      rewrite H in H2. inversion H2; subst row2.
      assert (row1 = mc_create id (snd e)) as ->.
      { unfold connectOrCreate in H1.
        destruct (find _ _) as [[mcId0 row0]|] eqn:Hf.
        - apply find_row_some in Hf as [H0 _].
          destruct (decide (mcId0 = mcId)) as [->|Hne]; [congruence|].
          rewrite lookup_insert_ne in H1 by done. congruence.
        - destruct (decide (fresh (dom table) = mcId)) as [<-|Hne].
          + rewrite lookup_insert_eq in H1. congruence.
          + rewrite lookup_insert_ne in H1 by done. congruence. }
      simpl in Hs, Hs'. split.
      * apply set_eq. intros x. split; intros Hx.
        -- apply Hs' in Hx. apply elem_of_union in Hx as [Hx|Hx]; exact Hx.
        -- by apply Hs.
      * split.
        -- destruct Hk as (_ & _ & _ & _ & ->). exact He.
        -- exists e. split; [apply elem_of_cons; by left|exact Hk].
    + destruct (IH _ _ _ H H1 Hall) as (Hr & Hres & e' & He' & Hk').
      split; [done|]. split; [done|]. exists e'.
      split; [apply elem_of_cons; by right|done].
Qed.

(** X11: the tracker never deletes or rewrites a missing-connection row: a
    row keeps its id and fields and gains at most the activated run; a row
    that is new is linked to that run only, is unresolved and is keyed as
    one of the missing outcomes asks. *)
Theorem tracker_only_adds_links id m w w' :
  handleMissingConnections id m w = (Ok tt, w') ->
  (forall mcId row,
     missingConnection (store w) !! mcId = Some row ->
     exists row',
       missingConnection (store w') !! mcId = Some row'
       /\ mc_integrationId row' = mc_integrationId row
       /\ mc_connectionType row' = mc_connectionType row
       /\ mc_accountIdentifier row' = mc_accountIdentifier row
       /\ mc_externalAccountId row' = mc_externalAccountId row
       /\ mc_resolved row' = mc_resolved row
       /\ mc_runs row ⊆ mc_runs row'
       /\ mc_runs row' ⊆ {[id]} ∪ mc_runs row)
  /\ (forall mcId row',
        missingConnection (store w') !! mcId = Some row' ->
        missingConnection (store w) !! mcId = None ->
        mc_runs row' = {[id]} /\ mc_resolved row' = false
        /\ exists k mr,
             m !! k = Some (missing mr)
             /\ mc_key row' = fst (connectOrCreate_entry mr)
             /\ mc_externalAccountId row' = missing_externalAccountId mr).
Proof.
  intros H. destruct (handleMissingConnections_success _ _ _ _ H) as [r Hr].
  rewrite (handleMissingConnections_run id m w r Hr) in H.
  inversion H; subst w'; clear H. simpl. split.
  - intros mcId row Hrow.
    destruct (tracker_fold_row id (missing_entries m) _ _ _ Hrow)
      as (row' & H' & (?&?&?&?&?) & ? & ?).
    exists row'. done.
  - intros mcId row' H' Hnone.
    destruct (tracker_fold_new id (missing_entries m) _ _ _ H' Hnone)
      as (Hruns & Hres & e & He & Hk).
    { unfold missing_entries. apply Forall_forall. intros e He.
      apply list_elem_of_fmap in He as (mr & -> & _). reflexivity. }
    split; [done|]. split; [done|].
    unfold missing_entries in He.
    apply list_elem_of_fmap in He as (mr & -> & Hmr).
    apply missing_results_elem in Hmr as [k Hk'].
    exists k, mr. split; [done|].
    destruct Hk as (H1 & H2 & H3 & H4 & _). simpl in *.
    split; [|done]. unfold mc_key. by rewrite H1, H2, H3.
Qed.

(** X11, witness. *)
Lemma tracker_only_adds_links_witness :
  fst (handleMissingConnections "R1" missing_connections missing_world)
  = Ok tt
  /\ forall mcId row',
       missingConnection
         (store (snd (handleMissingConnections "R1" missing_connections
                        missing_world))) !! mcId = Some row' ->
       missingConnection (store missing_world) !! mcId = None ->
       mc_runs row' = {[ "R1"%string ]} /\ mc_resolved row' = false.
Proof.
  split; [vm_compute; reflexivity|].
  intros mcId row' H1 H2.
  destruct (tracker_only_adds_links "R1" missing_connections missing_world
              (snd (handleMissingConnections "R1" missing_connections
                      missing_world))) as [_ Hnew].
  - vm_compute. reflexivity.
  - destruct (Hnew mcId row' H1 H2) as (Hr & Hres & _). split; assumption.
Defined.

Lemma connectOrCreate_unique id table mr :
  unique_keys table ->
  unique_keys (connectOrCreate id table (connectOrCreate_entry mr)).
Proof.
  intros Hu. unfold connectOrCreate.
  destruct (find _ _) as [[mcId0 row0]|] eqn:Hf.
  - apply find_row_some in Hf as [H0 _].
    intros i j ri rj Hi Hj Hk.
    assert (forall x rx, <[mcId0 := mc_connect id row0]> table !! x = Some rx ->
              exists rx', table !! x = Some rx' /\ mc_key rx' = mc_key rx) as Hold.
    { intros x rx Hx. destruct (decide (mcId0 = x)) as [->|Hne].
      - rewrite lookup_insert_eq in Hx. inversion Hx; subst rx. eauto.
      - rewrite lookup_insert_ne in Hx by done. eauto. }
    destruct (Hold _ _ Hi) as (ri' & Hi' & Hki).
    destruct (Hold _ _ Hj) as (rj' & Hj' & Hkj).
    apply (Hu i j ri' rj' Hi' Hj'). congruence.
  - pose proof (find_row_none _ _ Hf) as Hnone.
    assert (forall x rx, table !! x = Some rx ->
              mc_key rx <> fst (connectOrCreate_entry mr)) as Hdiff.
    { intros x rx Hx Hk. apply mc_matches_key in Hk.
      rewrite (Hnone x rx Hx) in Hk. discriminate. }
    intros i j ri rj Hi Hj Hk.
    destruct (decide (fresh (dom table) = i)) as [<-|Hi'];
      destruct (decide (fresh (dom table) = j)) as [<-|Hj']; [done|..].
    + rewrite lookup_insert_eq in Hi. rewrite lookup_insert_ne in Hj by done.
      inversion Hi; subst ri. exfalso. apply (Hdiff j rj Hj). by rewrite <- Hk.
    + rewrite lookup_insert_eq in Hj. rewrite lookup_insert_ne in Hi by done.
      inversion Hj; subst rj. exfalso. apply (Hdiff i ri Hi). by rewrite Hk.
    + rewrite lookup_insert_ne in Hi, Hj by done. by apply (Hu i j ri rj).
Qed.

Lemma tracker_fold_unique id mrs : forall table,
  unique_keys table ->
  unique_keys (fold_left (connectOrCreate id)
                 (map connectOrCreate_entry mrs) table).
Proof.
  induction mrs as [|mr mrs IH]; intros table Hu; simpl; [done|].
  by apply IH, connectOrCreate_unique.
Qed.

Lemma handleMissingConnections_unique id m w w' :
  handleMissingConnections id m w = (Ok tt, w') ->
  unique_keys (missingConnection (store w)) ->
  unique_keys (missingConnection (store w')).
Proof.
  intros H Hu. destruct (handleMissingConnections_success _ _ _ _ H) as [r Hr].
  rewrite (handleMissingConnections_run id m w r Hr) in H.
  inversion H; subst w'; clear H. simpl.
  by apply tracker_fold_unique.
Qed.

(** X12: if no two missing-connection rows share a key before the tracker
    runs, none do afterwards. *)
Theorem tracker_keeps_keys_unique id m w w' :
  handleMissingConnections id m w = (Ok tt, w') ->
  unique_keys (missingConnection (store w)) ->
  unique_keys (missingConnection (store w')).
Proof. apply handleMissingConnections_unique. Qed.

(** X12, witness. *)
Lemma tracker_keeps_keys_unique_witness :
  unique_keys
    (missingConnection
       (store (snd (handleMissingConnections "R1" missing_connections
                      missing_world)))).
Proof.
  apply (tracker_keeps_keys_unique "R1" missing_connections missing_world).
  - vm_compute. reflexivity.
  - intros i j ri rj Hi. vm_compute in Hi. discriminate.
Defined.

(** X13: when a second run is parked on the same missing outcomes as a
    first one (keys being unique), no row is added, each outcome has
    exactly one row, both runs are linked to it, and the second parking
    enqueues no notification for it. *)
Theorem second_waiting_run_shares_the_row idA idB m w w1 w2 :
  unique_keys (missingConnection (store w)) ->
  idA <> idB ->
  handleMissingConnections idA m w = (Ok tt, w1) ->
  handleMissingConnections idB m w1 = (Ok tt, w2) ->
  dom (missingConnection (store w2)) = dom (missingConnection (store w1))
  /\ exists new,
       workerJobs (store w2) = workerJobs (store w1) ++ new
       /\ forall k mr,
            m !! k = Some (missing mr) ->
            exists mcId row,
              missingConnection (store w2) !! mcId = Some row
              /\ mc_key row = fst (connectOrCreate_entry mr)
              /\ idA ∈ mc_runs row /\ idB ∈ mc_runs row
              /\ (missingConnectionCreated mcId ∉ new)
              /\ forall mcId' row',
                   missingConnection (store w2) !! mcId' = Some row' ->
                   mc_key row' = fst (connectOrCreate_entry mr) ->
                   mcId' = mcId.
Proof.
  intros Hu Hne HA HB.
  pose proof (handleMissingConnections_unique _ _ _ _ HA Hu) as Hu1.
  pose proof (handleMissingConnections_unique _ _ _ _ HB Hu1) as Hu2.
  destruct (handleMissingConnections_success _ _ _ _ HA) as [rA HrA].
  destruct (handleMissingConnections_success _ _ _ _ HB) as [rB HrB].
  rewrite (handleMissingConnections_run idA m w rA HrA) in HA.
  inversion HA; subst w1; clear HA.
  rewrite (handleMissingConnections_run idB m _ rB HrB) in HB.
  inversion HB; subst w2; clear HB.
  simpl in *.
  set (t1 := tracker_table idA m (missingConnection (store w))) in *.
  set (t2 := tracker_table idB m t1) in *.
  assert (forall k mr, m !! k = Some (missing mr) ->
            has_row t1 (fst (connectOrCreate_entry mr)) idA) as HrowsA.
  { intros k mr Hk. apply tracker_fold_has_row, missing_results_elem. eauto. }
  assert (forall k mr, m !! k = Some (missing mr) ->
            has_row t2 (fst (connectOrCreate_entry mr)) idB) as HrowsB.
  { intros k mr Hk. apply tracker_fold_has_row, missing_results_elem. eauto. }
  split.
  - apply tracker_fold_dom_stable. unfold missing_entries.
    apply Forall_forall. intros e He.
    apply list_elem_of_fmap in He as (mr & -> & Hmr).
    apply missing_results_elem in Hmr as [k Hk]. exists idA.
    by apply (HrowsA k).
  - eexists. split; [reflexivity|]. intros k mr Hk.
    destruct (HrowsA k mr Hk) as (mcId & row1 & H1 & Hm1 & HinA).
    destruct (tracker_fold_row idB (missing_entries m) _ _ _ H1)
      as (row2 & H2 & Hsame & Hsub & _).
    fold (tracker_table idB m t1) in H2. fold t2 in H2.
    destruct (HrowsB k mr Hk) as (mcIdB & rowB & HB & HmB & HinB).
    apply mc_matches_key in Hm1, HmB.
    assert (mc_key row2 = fst (connectOrCreate_entry mr)) as Hk2.
    { by rewrite (same_credential_key _ _ Hsame). }
    assert (mcIdB = mcId) as ->.
    { apply (Hu2 mcIdB mcId rowB row2 HB H2). by rewrite HmB, Hk2. }
    rewrite H2 in HB. inversion HB; subst rowB.
    exists mcId, row2. split; [done|]. split; [done|].
    split; [by apply Hsub|]. split; [done|]. split.
    + intros Hin. apply notifications_elem in Hin as (mcId' & row' & Heq & Hl & Hsz).
      inversion Heq; subst mcId'. apply linked_elem in Hl as [Hl _].
      rewrite H2 in Hl. inversion Hl; subst row'.
      apply size_1_elem_of in Hsz as [x Hx].
      assert (idA ∈ mc_runs row2) as HA' by (by apply Hsub).
      rewrite Hx in HA', HinB. apply elem_of_singleton in HA', HinB.
      apply Hne. by rewrite HA', HinB.
    + intros mcId' row' H' Hk'. apply (Hu2 mcId' mcId row' row2 H' H2).
      by rewrite Hk', Hk2.
Qed.

(** X13, witness. *)
Lemma second_waiting_run_shares_the_row_witness :
  let w1 := snd (handleMissingConnections "R1" missing_connections
                   (two_runs hosted)) in
  let w2 := snd (handleMissingConnections "R2" missing_connections w1) in
  dom (missingConnection (store w2)) = dom (missingConnection (store w1)).
Proof.
  cbv zeta.
  apply (second_waiting_run_shares_the_row "R1" "R2" missing_connections
           (two_runs hosted)).
  - intros i j ri rj Hi. vm_compute in Hi. discriminate.
  - discriminate.
  - vm_compute. reflexivity.
  - vm_compute. reflexivity.
Defined.

Lemma createRunConnections_missing run w0 m w0' k mr :
  createRunConnections run w0 = (Ok m, w0') ->
  m !! k = Some (missing mr) ->
  missing_externalAccountId mr = run_externalAccountId (found_run run).
Proof.
  intros Hm Hk. unfold createRunConnections in Hm. rewrite foldM_resolve in Hm.
  inversion Hm; subst m. apply resolve_all_missing in Hk as [Hk|Hk]; [|done].
  by rewrite lookup_empty in Hk.
Qed.

(** C9: the tracker, run for a run on the record the resolver returned
    for it, succeeds, and for every missing outcome of the record: the
    [where] key and the [create] payload of its [connectOrCreate] carry
    the same integration id, connection type and account identifier, the
    account identifier being the run's external-account identifier when it
    has one and ["DEVELOPER"] otherwise; afterwards a row with that key is
    linked to the run, which is a row that was there before, with its
    fields as they were, or else the row made from the payload.  A later
    attempt, by this or any other run, for credentials among these
    succeeds, adds no row and links its run to the row with that key. *)
Theorem missing_connection_key_is_stable run id m w0 w0' w :
  createRunConnections run w0 = (Ok m, w0') ->
  jobRun (store w) !! id = Some (found_run run) ->
  let accountIdentifier :=
    match run_externalAccountId (found_run run) with
    | Some a => a
    | None => "DEVELOPER"%string
    end in
  exists w1,
    handleMissingConnections id m w = (Ok tt, w1)
    /\ (forall k mr, m !! k = Some (missing mr) ->
          connectOrCreate_entry mr
          = ({| mcw_integrationId := integration_id (missing_integration mr);
                mcw_connectionType := missing_connectionType mr;
                mcw_accountIdentifier := accountIdentifier |},
             {| mcc_integrationId := integration_id (missing_integration mr);
                mcc_connectionType := missing_connectionType mr;
                mcc_accountIdentifier := accountIdentifier;
                mcc_externalAccountId := run_externalAccountId (found_run run);
                mcc_resolved := false |})
          /\ exists mcId row,
               missingConnection (store w1) !! mcId = Some row
               /\ mc_integrationId row = integration_id (missing_integration mr)
               /\ mc_connectionType row = missing_connectionType mr
               /\ mc_accountIdentifier row = accountIdentifier
               /\ id ∈ mc_runs row
               /\ match missingConnection (store w) !! mcId with
                  | Some old => same_credential old row
                  | None =>
                      row = mc_create id (snd (connectOrCreate_entry mr))
                  end)
    /\ is_Some (jobRun (store w1) !! id)
    /\ forall id' r' m',
         jobRun (store w1) !! id' = Some r' ->
         (forall k' mr', m' !! k' = Some (missing mr') ->
            exists k mr, m !! k = Some (missing mr)
                         /\ fst (connectOrCreate_entry mr')
                            = fst (connectOrCreate_entry mr)) ->
         exists w2,
           handleMissingConnections id' m' w1 = (Ok tt, w2)
           /\ dom (missingConnection (store w2))
              = dom (missingConnection (store w1))
           /\ forall k' mr', m' !! k' = Some (missing mr') ->
                has_row (missingConnection (store w2))
                        (fst (connectOrCreate_entry mr')) id'.
Proof.
  intros Hm Hr. cbv zeta.
  pose proof (handleMissingConnections_run id m w _ Hr) as Hw1.
  match type of Hw1 with _ = (Ok tt, ?x) => set (w1 := x) in * end.
  exists w1. split; [exact Hw1|].
  change (missingConnection (store w1))
    with (tracker_table id m (missingConnection (store w))).
  assert (forall k mr, m !! k = Some (missing mr) ->
            has_row (tracker_table id m (missingConnection (store w)))
                    (fst (connectOrCreate_entry mr)) id) as Hrows.
  { intros k mr Hk. apply tracker_fold_has_row, missing_results_elem. eauto. }
  assert (forall k mr, m !! k = Some (missing mr) ->
            nullish_or (missing_externalAccountId mr) "DEVELOPER"
            = match run_externalAccountId (found_run run) with
              | Some a => a
              | None => "DEVELOPER"%string
              end) as Hacc.
  { intros k mr Hk. rewrite (createRunConnections_missing _ _ _ _ _ _ Hm Hk).
    unfold nullish_or. by destruct (run_externalAccountId (found_run run)). }
  split; [|split].
  - intros k mr Hk.
    pose proof (createRunConnections_missing _ _ _ _ _ _ Hm Hk) as Hext.
    pose proof (Hacc k mr Hk) as Ha.
    split.
    { unfold connectOrCreate_entry. by rewrite Ha, Hext. }
    destruct (Hrows k mr Hk) as (mcId & row & Hrow & Hmatch & Hin).
    apply mc_matches_key in Hmatch.
    exists mcId, row. split; [exact Hrow|].
    assert (mc_integrationId row = integration_id (missing_integration mr)
            /\ mc_connectionType row = missing_connectionType mr
            /\ mc_accountIdentifier row
               = nullish_or (missing_externalAccountId mr) "DEVELOPER")
      as (H1 & H2 & H3).
    { unfold mc_key, connectOrCreate_entry in Hmatch. simpl in Hmatch.
      by inversion Hmatch. }
    split; [exact H1|]. split; [exact H2|]. split; [by rewrite H3|].
    split; [exact Hin|].
    destruct (missingConnection (store w) !! mcId) as [old|] eqn:Hold.
    + destruct (tracker_fold_row id (missing_entries m) _ _ _ Hold)
        as (row2 & Hrow2 & Hsame & _).
      unfold tracker_table in Hrow. rewrite Hrow in Hrow2.
      by inversion Hrow2; subst row2.
    + unfold tracker_table in Hrow.
      destruct (tracker_fold_new id (missing_entries m) _ _ _ Hrow Hold)
        as (Hruns & Hres & e & He & Hsame).
      { unfold missing_entries. apply Forall_forall. intros e He.
        by apply list_elem_of_fmap in He as (mr0 & -> & _). }
      unfold missing_entries in He.
      apply list_elem_of_fmap in He as (mr0 & -> & Hmr0).
      apply missing_results_elem in Hmr0 as [k0 Hk0].
      pose proof (createRunConnections_missing _ _ _ _ _ _ Hm Hk0) as Hext0.
      destruct Hsame as (_ & _ & _ & He4 & _). simpl in He4.
      destruct row as [a b c d e f]. simpl in *.
      unfold mc_create. simpl.
      rewrite H1, H2, H3, He4, Hext0, Hext, Hres, Hruns. reflexivity.
  - subst w1. simpl. rewrite lookup_insert_eq. by eexists.
  - intros id' r' m' Hr' Hsub.
    rewrite (handleMissingConnections_run id' m' w1 r' Hr').
    eexists. split; [reflexivity|]. simpl. split.
    + apply tracker_fold_dom_stable. unfold missing_entries.
      apply Forall_forall. intros e He.
      apply list_elem_of_fmap in He as (mr' & -> & Hmr').
      apply missing_results_elem in Hmr' as [k' Hk'].
      destruct (Hsub k' mr' Hk') as (k & mr & Hk & ->).
      exists id. by apply (Hrows k).
    + intros k' mr' Hk'. apply tracker_fold_has_row, missing_results_elem. eauto.
Qed.

(** C9, witness: a run with one missing developer credential. *)
Lemma missing_connection_key_is_stable_witness :
  let accountIdentifier :=
    match run_externalAccountId (found_run missing_found) with
    | Some a => a
    | None => "DEVELOPER"%string
    end in
  exists w1,
    handleMissingConnections "R1" missing_connections missing_world
    = (Ok tt, w1)
    /\ (forall k mr, missing_connections !! k = Some (missing mr) ->
          connectOrCreate_entry mr
          = ({| mcw_integrationId := integration_id (missing_integration mr);
                mcw_connectionType := missing_connectionType mr;
                mcw_accountIdentifier := accountIdentifier |},
             {| mcc_integrationId := integration_id (missing_integration mr);
                mcc_connectionType := missing_connectionType mr;
                mcc_accountIdentifier := accountIdentifier;
                mcc_externalAccountId :=
                  run_externalAccountId (found_run missing_found);
                mcc_resolved := false |})
          /\ exists mcId row,
               missingConnection (store w1) !! mcId = Some row
               /\ mc_integrationId row = integration_id (missing_integration mr)
               /\ mc_connectionType row = missing_connectionType mr
               /\ mc_accountIdentifier row = accountIdentifier
               /\ "R1"%string ∈ mc_runs row
               /\ match missingConnection (store missing_world) !! mcId with
                  | Some old => same_credential old row
                  | None =>
                      row = mc_create "R1" (snd (connectOrCreate_entry mr))
                  end)
    /\ is_Some (jobRun (store w1) !! "R1"%string)
    /\ forall id' r' m',
         jobRun (store w1) !! id' = Some r' ->
         (forall k' mr', m' !! k' = Some (missing mr') ->
            exists k mr, missing_connections !! k = Some (missing mr)
                         /\ fst (connectOrCreate_entry mr')
                            = fst (connectOrCreate_entry mr)) ->
         exists w2,
           handleMissingConnections id' m' w1 = (Ok tt, w2)
           /\ dom (missingConnection (store w2))
              = dom (missingConnection (store w1))
           /\ forall k' mr', m' !! k' = Some (missing mr') ->
                has_row (missingConnection (store w2))
                        (fst (connectOrCreate_entry mr')) id'.
Proof.
  apply (missing_connection_key_is_stable missing_found "R1"
           missing_connections missing_world
           (snd (createRunConnections missing_found missing_world))
           missing_world).
  - vm_compute. reflexivity.
  - vm_compute. reflexivity.
Defined.

(** ** Further properties of the Shopify integration *)

Module StringFacts.

Lemma app_nil (b : string) : ("" ++ b)%string = b.
Proof. reflexivity. Qed.

Lemma app_cons c (a b : string) :
  (String c a ++ b)%string = String c (a ++ b)%string.
Proof. reflexivity. Qed.

Lemma prefix_app pat b : String.prefix pat (pat ++ b)%string = true.
Proof.
  induction pat as [|c pat IH]; rewrite ?app_cons, ?app_nil.
  - destruct b; reflexivity.
  - simpl. destruct (ascii_dec c c); [exact IH|congruence].
Qed.

Lemma prefix_split pat : forall s,
  String.prefix pat s = true -> exists b, s = (pat ++ b)%string.
Proof.
  induction pat as [|c pat IH]; intros s H.
  - by exists s.
  - destruct s as [|c' s]; [discriminate|]. simpl in H.
    destruct (ascii_dec c c') as [<-|]; [|discriminate].
    destruct (IH s H) as [b ->]. exists b. by rewrite app_cons.
Qed.

Lemma substring_all s : substring 0 (String.length s) s = s.
Proof. induction s as [|c s IH]; simpl; [reflexivity|]. by rewrite IH. Qed.

Lemma substring_after pat b :
  substring (String.length pat)
            (String.length (pat ++ b) - String.length pat) (pat ++ b)%string
  = b.
Proof.
  induction pat as [|c pat IH]; rewrite ?app_cons, ?app_nil; simpl.
  - rewrite Nat.sub_0_r. apply substring_all.
  - exact IH.
Qed.

Lemma occursb_nil pat : occursb pat "" = String.prefix pat "".
Proof. unfold occursb. apply orb_false_r. Qed.

Lemma occursb_cons pat c s :
  occursb pat (String c s) = String.prefix pat (String c s) || occursb pat s.
Proof. reflexivity. Qed.

Lemma occursb_split pat : forall s,
  occursb pat s = true <-> exists a b, s = (a ++ pat ++ b)%string.
Proof.
  induction s as [|c s IH].
  - rewrite occursb_nil. split.
    + intros H. apply prefix_split in H as [b ->]. by exists ""%string, b.
    + intros (a & b & H). destruct a; rewrite ?app_cons, ?app_nil in H.
      * rewrite H. apply prefix_app.
      * discriminate.
  - rewrite occursb_cons, orb_true_iff, IH. split.
    + intros [H|(a & b & ->)].
      * apply prefix_split in H as [b ->]. by exists ""%string, b.
      * by exists (String c a), b.
    + intros (a & b & H). destruct a as [|c' a];
        rewrite ?app_cons, ?app_nil in H.
      * left. rewrite H. apply prefix_app.
      * right. inversion H. eauto.
Qed.

Lemma remove_first_absent pat : forall s fuel,
  occursb pat s = false -> Shopify.remove_first fuel pat s = s.
Proof.
  induction s as [|c s IH]; intros fuel H.
  - rewrite occursb_nil in H. destruct fuel; cbn [Shopify.remove_first];
      by rewrite H.
  - rewrite occursb_cons in H. apply orb_false_iff in H as [Hp H].
    destruct fuel; cbn [Shopify.remove_first]; rewrite Hp; [reflexivity|].
    by rewrite IH.
Qed.

Lemma remove_first_prefix pat b fuel :
  Shopify.remove_first fuel pat (pat ++ b) = b.
Proof.
  destruct fuel; cbn [Shopify.remove_first]; rewrite prefix_app;
    apply substring_after.
Qed.

Lemma remove_first_at_prefix pat s b fuel :
  s = (pat ++ b)%string -> Shopify.remove_first fuel pat s = b.
Proof. intros ->. apply remove_first_prefix. Qed.

Lemma remove_first_occurs pat : forall s fuel,
  occursb pat s = true -> (String.length s <= fuel)%nat ->
  exists a b,
    s = (a ++ pat ++ b)%string
    /\ Shopify.remove_first fuel pat s = (a ++ b)%string
    /\ forall a' b', s = (a' ++ pat ++ b')%string ->
                     (String.length a <= String.length a')%nat.
Proof.
  induction s as [|c s IH]; intros fuel H Hfuel.
  - rewrite occursb_nil in H.
    destruct (prefix_split _ _ H) as [b Hb]. exists ""%string, b.
    split; [exact Hb|]. split.
    + exact (remove_first_at_prefix _ _ _ _ Hb).
    + intros; simpl; lia.
  - destruct (String.prefix pat (String c s)) eqn:Hp.
    + destruct (prefix_split _ _ Hp) as [b Hb]. exists ""%string, b.
      split; [exact Hb|]. split.
      * exact (remove_first_at_prefix _ _ _ _ Hb).
      * intros; simpl; lia.
    + rewrite occursb_cons, Hp in H. simpl in H.
      destruct fuel as [|fuel]; [simpl in Hfuel; lia|].
      destruct (IH fuel H) as (a & b & Hs & Hr & Hfirst);
        [simpl in Hfuel; lia|].
      exists (String c a), b. split; [rewrite app_cons; by rewrite <- Hs|].
      split.
      * cbn [Shopify.remove_first]. rewrite Hp. by rewrite Hr.
      * intros a' b' Hs'. destruct a' as [|c' a'];
          rewrite ?app_cons, ?app_nil in Hs'.
        -- rewrite Hs' in Hp. rewrite prefix_app in Hp. discriminate.
        -- inversion Hs' as [[Hc Hs'']]. simpl.
           pose proof (Hfirst a' b' Hs''). lia.
Qed.

End StringFacts.

(** X17: the shop domain of an instance is the host name without its
    leading ["https://"] or ["http://"], and the host name itself when it
    has neither marker (the rest of the host name holding no marker). *)
Theorem shop_domain_strips_protocol options this d :
  Shopify.new options = inr this ->
  (Shopify.hostName options = ("https://" ++ d)%string ->
   occursb "http://" d = false -> occursb "https://" d = false ->
   Shopify._shopDomain this = d)
  /\ (Shopify.hostName options = ("http://" ++ d)%string ->
      occursb "https://" d = false ->
      Shopify._shopDomain this = d)
  /\ (Shopify.hostName options = d ->
      occursb "http://" d = false -> occursb "https://" d = false ->
      Shopify._shopDomain this = d).
Proof.
  unfold Shopify.new. destruct (_ && _); [discriminate|].
  intros H. inversion H; subst this; clear H. simpl. split; [|split].
  - intros -> H1 H2.
    rewrite (StringFacts.remove_first_absent "http://").
    + apply StringFacts.remove_first_prefix.
    + simpl. exact H1.
  - intros -> H2. rewrite StringFacts.remove_first_prefix.
    by apply StringFacts.remove_first_absent.
  - intros -> H1 H2. rewrite (StringFacts.remove_first_absent "http://") by done.
    by apply StringFacts.remove_first_absent.
Qed.

(** X17, witness. *)
Lemma shop_domain_strips_protocol_witness :
  Shopify._shopDomain
    {| Shopify._options := options_with (Shopify.KeyString "key");
       Shopify._shopDomain := "example.myshopify.com" |}
  = "example.myshopify.com"%string.
Proof.
  apply (proj1 (shop_domain_strips_protocol
                  (options_with (Shopify.KeyString "key"))
                  {| Shopify._options := options_with (Shopify.KeyString "key");
                     Shopify._shopDomain := "example.myshopify.com" |}
                  "example.myshopify.com"
                  ltac:(vm_compute; reflexivity))).
  - reflexivity.
  - vm_compute. reflexivity.
  - vm_compute. reflexivity.
Defined.

(** X18: the constructor removes the first ["http://"] of the host name,
    then the first ["https://"] of what is left, wherever they stand, and
    nothing else. *)
Theorem shop_domain_removes_markers_anywhere options this :
  Shopify.new options = inr this ->
  exists h,
    (if occursb "http://" (Shopify.hostName options)
     then exists a b,
            Shopify.hostName options = (a ++ "http://" ++ b)%string
            /\ h = (a ++ b)%string
            /\ forall a' b',
                 Shopify.hostName options = (a' ++ "http://" ++ b')%string ->
                 (String.length a <= String.length a')%nat
     else h = Shopify.hostName options)
    /\ (if occursb "https://" h
        then exists a b,
               h = (a ++ "https://" ++ b)%string
               /\ Shopify._shopDomain this = (a ++ b)%string
               /\ forall a' b',
                    h = (a' ++ "https://" ++ b')%string ->
                    (String.length a <= String.length a')%nat
        else Shopify._shopDomain this = h).
Proof.
  unfold Shopify.new. destruct (_ && _); [discriminate|].
  intros H. inversion H; subst this; clear H. cbn [Shopify._shopDomain].
  set (host := Shopify.hostName options).
  exists (Shopify.remove_first (String.length host) "http://" host). split.
  - destruct (occursb "http://" host) eqn:Ho.
    + destruct (StringFacts.remove_first_occurs "http://" host
                  (String.length host) Ho) as (a & b & Hs & Hr & Hfirst);
        [lia|].
      exists a, b. done.
    + by apply StringFacts.remove_first_absent.
  - set (h := Shopify.remove_first (String.length host) "http://" host).
    destruct (occursb "https://" h) eqn:Ho.
    + destruct (StringFacts.remove_first_occurs "https://" h
                  (String.length h) Ho) as (a & b & Hs & Hr & Hfirst);
        [lia|].
      exists a, b. done.
    + by apply StringFacts.remove_first_absent.
Qed.

(** X18, witness. *)
Lemma shop_domain_removes_markers_anywhere_witness :
  exists h,
    (if occursb "http://" (Shopify.hostName (options_with Shopify.KeyAbsent))
     then exists a b,
            Shopify.hostName (options_with Shopify.KeyAbsent)
            = (a ++ "http://" ++ b)%string
            /\ h = (a ++ b)%string
            /\ forall a' b',
                 Shopify.hostName (options_with Shopify.KeyAbsent)
                 = (a' ++ "http://" ++ b')%string ->
                 (String.length a <= String.length a')%nat
     else h = Shopify.hostName (options_with Shopify.KeyAbsent))
    /\ (if occursb "https://" h
        then exists a b,
               h = (a ++ "https://" ++ b)%string
               /\ Shopify._shopDomain
                    {| Shopify._options := options_with Shopify.KeyAbsent;
                       Shopify._shopDomain := "example.myshopify.com" |}
                  = (a ++ b)%string
               /\ forall a' b',
                    h = (a' ++ "https://" ++ b')%string ->
                    (String.length a <= String.length a')%nat
        else Shopify._shopDomain
               {| Shopify._options := options_with Shopify.KeyAbsent;
                  Shopify._shopDomain := "example.myshopify.com" |} = h).
Proof.
  apply (shop_domain_removes_markers_anywhere (options_with Shopify.KeyAbsent)).
  vm_compute. reflexivity.
Defined.

Section ShopifyClientFacts.

Import ShopifyClient.

Context `{lib : Library}.

Lemma construct_fields (o : Options) (this : RunInstance) :
  construct o = inr this ->
  options this = o
  /\ _client this = None /\ _io this = None
  /\ _connectionKey this = None /\ _session this = None
  /\ Shopify.new (base o) = inr (as_instance this).
Proof.
  unfold ShopifyClient.construct.
  destruct (Shopify.new (base o)) as [s|i] eqn:Hn; [discriminate|].
  intros H. inversion H; subst this; clear H. simpl.
  repeat (split; [reflexivity|]).
  unfold Shopify.new in Hn. destruct (_ && _); [discriminate|].
  inversion Hn. reflexivity.
Qed.

Lemma construct_again (o : Options) (this : RunInstance) :
  construct o = inr this -> construct (options this) = inr this.
Proof.
  intros H. destruct (construct_fields o this H) as (Ho & Hc & Hi & Hk & Hs & Hn).
  rewrite Ho. exact H.
Qed.

(** X14: on an instance made by the constructor, [cloneForRun] throws
    "No auth" when [authSource] is HOSTED, never throws the constructor's
    string, and ignores [auth]; a clone it returns belongs to a LOCAL
    instance, has the same options and shop domain, the given io and
    connection key, a client made with the API key as both key and secret,
    and the session of the options or else a custom-app session carrying
    the client's admin token. *)
Theorem cloneForRun_needs_api_key (o : Options)
    (this : RunInstance) io connectionKey auth :
  construct o = inr this ->
  (authSource this = Shopify.HOSTED ->
   cloneForRun this io connectionKey auth = inl (ThrownError "No auth"))
  /\ (forall s, cloneForRun this io connectionKey auth <> inl (ThrownString s))
  /\ cloneForRun this io connectionKey auth
     = cloneForRun this io connectionKey None
  /\ forall clone,
       cloneForRun this io connectionKey auth = inr clone ->
       authSource this = Shopify.LOCAL
       /\ authSource clone = Shopify.LOCAL
       /\ options clone = o
       /\ shopDomain clone = shopDomain this
       /\ _io clone = Some io
       /\ _connectionKey clone = Some connectionKey
       /\ exists k client s,
            Shopify.apiKey (base o) = Shopify.KeyString k
            /\ shopifyApi
                 {| cfg_apiKey := k; cfg_apiSecretKey := k;
                    cfg_adminApiAccessToken := adminAccessToken o;
                    cfg_apiVersion :=
                      default LATEST_API_VERSION (apiVersion o);
                    cfg_hostName := shopDomain this;
                    cfg_isCustomStoreApp := true;
                    cfg_isEmbeddedApp := false |} = inr client
            /\ _client clone = Some client
            /\ _session clone = Some s
            /\ match session o with
               | Some given => s = given
               | None => accessToken s = config_adminApiAccessToken client
               end.
Proof.
  intros Hc. pose proof (construct_again o this Hc) as Hagain.
  destruct (construct_fields o this Hc) as (Ho & _).
  unfold ShopifyClient.cloneForRun. rewrite Hagain.
  unfold ShopifyClient.createClient, authSource, Shopify.authSource,
    apiKey_string.
  cbn [as_instance Shopify._options]. rewrite !Ho.
  destruct (Shopify.apiKey_truthy (base o)) eqn:Ht.
  - split; [discriminate|].
    unfold Shopify.apiKey_truthy in Ht.
    destruct (Shopify.apiKey (base o)) as [| |k] eqn:Hk; try discriminate.
    destruct (shopifyApi _) as [e|client] eqn:Hapi.
    + split; [discriminate|]. split; [reflexivity|]. discriminate.
    + destruct (customAppSession client (config_hostName client))
        as [e|s0] eqn:Hs0.
      * split; [discriminate|]. split; [reflexivity|]. discriminate.
      * split; [discriminate|]. split; [reflexivity|].
        intros clone H. inversion H; subst clone; clear H. simpl.
        split; [reflexivity|]. split.
        { unfold Shopify.apiKey_truthy. by rewrite Hk, Ht. }
        repeat (split; [reflexivity|]).
        exists k, client. eexists. split; [reflexivity|].
        split; [exact Hapi|]. split; [reflexivity|]. split; [reflexivity|].
        destruct (session o); reflexivity.
  - split; [reflexivity|]. split; [discriminate|]. split; [reflexivity|].
    discriminate.
Qed.

(** X15: on an instance that comes straight from the constructor,
    [runTask] throws "No IO" and [rest] throws "No session". *)
Theorem runTask_needs_a_clone (o : Options)
    (this : RunInstance) key opts (errorCallback : option Callback) :
  construct o = inr this ->
  runTask this key opts errorCallback = inl (ThrownError "No IO")
  /\ rest this = inl (ThrownError "No session").
Proof.
  intros Hc. destruct (construct_fields o this Hc) as (_ & _ & Hi & _ & Hs & _).
  unfold ShopifyClient.runTask, ShopifyClient.rest. by rewrite Hi, Hs.
Qed.

(** X16: on a clone, [runTask] throws "No connection key" when the clone
    was made with the empty key; otherwise it hands [io.runTask] the client
    and session of the clone, the clone's connection key whatever the
    caller's options say, the caller's [icon] and [retry] or else
    ["shopify"] and the standard backoff, the caller's other options as
    they are, and the caller's error callback or else [onError]. *)
Theorem runTask_of_a_clone (this clone : RunInstance) io connectionKey auth
    key opts (errorCallback : option Callback) :
  cloneForRun this io connectionKey auth = inr clone ->
  (connectionKey = ""%string ->
   runTask clone key opts errorCallback
   = inl (ThrownError "No connection key"))
  /\ (connectionKey <> ""%string ->
      exists req client s,
        runTask clone key opts errorCallback = inr req
        /\ rt_io req = io /\ rt_key req = key
        /\ rt_callback req = inr (client, s)
        /\ _client clone = Some client
        /\ rest clone = inr s
        /\ rt_options req !! "connectionKey"%string
           = Some (js_string connectionKey)
        /\ rt_options req !! "icon"%string
           = Some (default (js_string "shopify")
                     (default ∅ opts !! "icon"%string))
        /\ rt_options req !! "retry"%string
           = Some (default retry_standardBackoff
                     (default ∅ opts !! "retry"%string))
        /\ (forall k, k <> "connectionKey"%string -> k <> "icon"%string ->
                      k <> "retry"%string ->
                      rt_options req !! k = default ∅ opts !! k)
        /\ rt_errorCallback req
           = match errorCallback with
             | Some cb => Custom cb
             | None => DefaultOnError
             end).
Proof.
  unfold ShopifyClient.cloneForRun.
  destruct (construct _) as [e|shopify]; [discriminate|].
  destruct (createClient _ _) as [e|client]; [discriminate|].
  destruct (customAppSession _ _) as [e|s0]; [discriminate|].
  intros H. inversion H; subst clone; clear H.
  unfold ShopifyClient.runTask, ShopifyClient.rest. simpl. split.
  - intros ->. reflexivity.
  - intros Hne. destruct connectionKey as [|c ck]; [done|]. simpl.
    eexists _, _, _. split; [reflexivity|]. simpl.
    repeat (split; [reflexivity|]).
    split; [by rewrite lookup_insert_eq|].
    split; [|split; [|split; [|reflexivity]]].
    + rewrite lookup_insert_ne by done.
      rewrite lookup_union, lookup_insert_eq.
      by destruct (default ∅ opts !! "icon"%string).
    + rewrite lookup_insert_ne by done. rewrite lookup_union.
      rewrite lookup_insert_ne by done. rewrite lookup_singleton_eq.
      by destruct (default ∅ opts !! "retry"%string).
    + intros k H1 H2 H3. rewrite lookup_insert_ne by done.
      rewrite lookup_union. rewrite lookup_insert_ne by done.
      rewrite lookup_singleton_ne by done.
      by destruct (default ∅ opts !! k).
Qed.

End ShopifyClientFacts.

(** X14, witness. *)
Lemma cloneForRun_needs_api_key_witness :
  ShopifyClient.cloneForRun (shop_instance Shopify.KeyAbsent) tt "conn" None
  = inl (ShopifyClient.ThrownError "No auth").
Proof.
  assert (ShopifyClient.construct (shop_options Shopify.KeyAbsent)
          = inr (shop_instance Shopify.KeyAbsent)) as Hc
    by (vm_compute; reflexivity).
  apply (proj1 (cloneForRun_needs_api_key (shop_options Shopify.KeyAbsent)
                  (shop_instance Shopify.KeyAbsent) tt "conn" None Hc)).
  reflexivity.
Defined.

(** X15, witness. *)
Lemma runTask_needs_a_clone_witness :
  ShopifyClient.runTask (shop_instance (Shopify.KeyString "key")) "task"
    None None
  = inl (ShopifyClient.ThrownError "No IO")
  /\ ShopifyClient.rest (shop_instance (Shopify.KeyString "key"))
     = inl (ShopifyClient.ThrownError "No session").
Proof.
  apply (runTask_needs_a_clone (shop_options (Shopify.KeyString "key"))).
  vm_compute. reflexivity.
Defined.

(** X16, witness. *)
Lemma runTask_of_a_clone_witness :
  exists req,
    ShopifyClient.runTask shop_clone "task"
      (Some {[ "connectionKey"%string := "other"%string ]}) None
    = inr req
    /\ ShopifyClient.rt_options req !! "connectionKey"%string
       = Some "conn"%string.
Proof.
  destruct (runTask_of_a_clone (shop_instance (Shopify.KeyString "key"))
              shop_clone tt "conn" None "task"
              (Some {[ "connectionKey"%string := "other"%string ]}) None)
    as [_ H].
  - vm_compute. reflexivity.
  - destruct H as (req & client & s & Hreq & _ & _ & _ & _ & _ & Hck & _).
    + discriminate.
    + exists req. split; [exact Hreq|exact Hck].
Defined.
